(** * httpretrier: backoff strategies and the retrying round tripper

    A shallow embedding of [httpretrier.go].  Go's [time.Duration] and
    [int] are 64-bit signed integers; they are modelled as [Z] together
    with the two's-complement wrap-around that Go's arithmetic performs.
    The wrapped transport, the request's [GetBody] and the response
    bodies are collaborators of the package: their outcomes are scripted
    per attempt, and every interaction with them is recorded in a trace. *)

From Stdlib Require Import ZArith List String Bool Lia.
Import ListNotations.
Local Open Scope Z_scope.

(** ** 64-bit signed integers *)

Module Int64.

Definition min_int : Z := - 2 ^ 63.
Definition max_int : Z := 2 ^ 63 - 1.

(** A value a Go [int64] variable can hold. *)
Definition in_range (z : Z) : Prop := min_int <= z <= max_int.

(** Result of an [int64] operation whose mathematical value is [z]. *)
Definition wrap (z : Z) : Z := (z + 2 ^ 63) mod 2 ^ 64 - 2 ^ 63.

(** Conversion [uint(x)] (the same bits read as unsigned). *)
Definition to_uint (x : Z) : Z := x mod 2 ^ 64.

(** [1 << s] at type [int64] for an unsigned shift count [s]: Go
    yields 0 once the count reaches the width of the operand. *)
Definition shl_one (s : Z) : Z :=
  if s <? 64 then wrap (Z.shiftl 1 s) else 0.

(** Signed division truncates toward zero. *)
Definition div (a b : Z) : Z := wrap (Z.quot a b).

End Int64.

(** ** Backoff strategies *)

(** [type RetryStrategy func(attempt int) time.Duration] *)
Definition RetryStrategy : Type := Z -> Z.

Definition ExponentialBackoff (base maxDelay : Z) : RetryStrategy :=
  fun attempt =>
    (* attempt == 0 && base > maxDelay *)
    if (attempt =? 0) && (maxDelay <? base) then base
    else
      (* delay := base * (1 << uint(attempt)) *)
      let delay := Int64.wrap (base * Int64.shl_one (Int64.to_uint attempt)) in
      (* delay > maxDelay || delay <= 0 *)
      let delay :=
        if (maxDelay <? delay) || (delay <=? 0) then maxDelay else delay in
      delay.

Definition FixedDelay (delay : Z) : RetryStrategy :=
  fun _attempt => delay.

(** [rand.Int63n(n)]: panics ([None]) when [n <= 0]; otherwise the
    generator's accepted 63-bit draw [raw] is reduced modulo [n]. *)
Definition Int63n (raw n : Z) : option Z :=
  if n <=? 0 then None else Some (raw mod n).

(** [JitterBackoff], with the draw of the random source made an explicit
    argument.  [None] stands for the panic of [rand.Int63n]. *)
Definition JitterBackoff (base maxDelay : Z) (raw : Z) (attempt : Z)
  : option Z :=
  let baseDelay := ExponentialBackoff base maxDelay attempt in
  match Int63n raw (Int64.div baseDelay 2) with
  | None => None
  | Some jitter => Some (Int64.wrap (baseDelay + jitter))
  end.

(** The delay as the documentation words it, over the mathematical
    integers: [min(base * 2^attempt, cap)], except that attempt 0 yields
    [base] when [base > cap], and that a product which overflows to a
    non-positive duration is replaced by [cap]. *)
Definition ExponentialBackoff_doc (base cap attempt : Z) : Z :=
  if (attempt =? 0) && (cap <? base) then base
  else
    let p := base * 2 ^ attempt in
    if negb ((Int64.min_int <=? p) && (p <=? Int64.max_int))
       && (Int64.wrap p <=? 0)
    then cap
    else Z.min p cap.

(** ** Errors *)

(** Error values: the package's sentinel, errors produced by the
    collaborators (opaque, told apart by a tag), and [fmt.Errorf] with
    one [%w] operand and its remaining integer operands. *)
Inductive error : Type :=
| ErrAllRetriesFailed
| External (tag : nat)
| Errorf (format : string) (wrapped : error) (args : list Z).

(** [errors.Is(e, ErrAllRetriesFailed)]: the sentinel occurs on the
    chain of wrapped errors. *)
Fixpoint Is_ErrAllRetriesFailed (e : error) : bool :=
  match e with
  | ErrAllRetriesFailed => true
  | External _ => false
  | Errorf _ w _ => Is_ErrAllRetriesFailed w
  end.

(** ** Requests, responses and the wrapped transport *)

(** A response: its status code and what happens when its body is
    drained ([io.Copy(io.Discard, resp.Body)]) and closed.  The body
    itself is always there, as [net/http] promises of a response. *)
Record Response : Type := {
  StatusCode : Z;
  copyErr : option error;
  closeErr : option error
}.

(** A body is known by a handle; [None] is the nil body. *)
Definition body : Type := option nat.

(** A request: its current body and its rewind capability.  The outcome
    of the call of [GetBody] made during an attempt is scripted by the
    attempt index. *)
Record Request : Type := {
  Body : body;
  GetBody : option (Z -> body * option error)
}.

(** [http.RoundTripper]: the outcome [(resp, err)] of the physical send
    made during an attempt, scripted by the attempt index. *)
Definition RoundTripper : Type := Z -> option Response * option error.

Definition StatusInternalServerError : Z := 500.

Module retryTransport.
Record t : Type := {
  Transport : option RoundTripper;
  MaxRetries : Z;
  RetryStrategy : option RetryStrategy
}.
End retryTransport.

(** What [RoundTrip] does to its collaborators, in order.  The events of
    a response carry the index of the attempt that produced it. *)
Inductive event : Type :=
| EvGetBody (attempt : Z)
| EvSend (attempt : Z) (sent : body)
| EvCopy (attempt : Z)
| EvClose (attempt : Z)
| EvPrintf (number delay : Z)
| EvSleep (delay : Z).

(** What [RoundTrip] hands back: [(resp, nil)], [(nil, err)], or the
    run-time panic of a nil dereference. *)
Inductive result : Type :=
| Ok (resp : Response)
| Err (e : error)
| Panic.

(** How one pass through the loop body ends. *)
Inductive control : Type :=
| Return (r : result)
| Continue.

Definition is_send (e : event) : bool :=
  match e with EvSend _ _ => true | _ => false end.

Definition is_copy_of (k : Z) (e : event) : bool :=
  match e with EvCopy a => a =? k | _ => false end.

Definition is_close_of (k : Z) (e : event) : bool :=
  match e with EvClose a => a =? k | _ => false end.

(** Number of physical sends of a trace. *)
Definition sends (tr : list event) : nat := List.length (filter is_send tr).

(** The delays waited for, in order. *)
Fixpoint sleeps (tr : list event) : list Z :=
  match tr with
  | [] => []
  | EvSleep d :: tr' => d :: sleeps tr'
  | _ :: tr' => sleeps tr'
  end.

Definition copies_of (k : Z) (tr : list event) : nat :=
  List.length (filter (is_copy_of k) tr).

Definition closes_of (k : Z) (tr : list event) : nat :=
  List.length (filter (is_close_of k) tr).

(** The attempt an event belongs to, for the events that name one. *)
Definition attempt_of (e : event) : option Z :=
  match e with
  | EvGetBody a | EvSend a _ | EvCopy a | EvClose a => Some a
  | EvPrintf _ _ | EvSleep _ => None
  end.

(** The attempt indices [from, from + 1, ..., from + n - 1]. *)
Fixpoint attempts (from : Z) (n : nat) : list Z :=
  match n with
  | O => []
  | S n' => from :: attempts (from + 1) n'
  end.

(** ** The retry loop *)

Section RoundTrip.

(** The transport and the strategy after the nil checks, and
    [r.MaxRetries]. *)
Variable transport : RoundTripper.
Variable retryStrategy : RetryStrategy.
Variable MaxRetries : Z.

(** Lines 90-96: the body is cloned when there is one and [GetBody] is
    defined.  Yields the events, the request as it is left, and the
    error of [GetBody] if any. *)
Definition rewind (attempt : Z) (req : Request)
  : list event * Request * option error :=
  match Body req, GetBody req with
  | Some _, Some getBody =>
      match getBody attempt with
      | (_, Some err) => ([EvGetBody attempt], req, Some err)
      | (bodyClone, None) =>
          ([EvGetBody attempt],
           {| Body := bodyClone; GetBody := GetBody req |}, None)
      end
  | _, _ => ([], req, None)
  end.

(** Lines 101-103: [err == nil && resp.StatusCode < 500].  [Some] is an
    early exit of [RoundTrip]; reading the status of a nil response
    panics. *)
Definition succeeded (resp : option Response) (err : option error)
  : option result :=
  match err with
  | Some _ => None
  | None =>
      match resp with
      | None => Some Panic
      | Some r =>
          if StatusCode r <? StatusInternalServerError
          then Some (Ok r) else None
      end
  end.

(** Lines 108-119: a response that is not returned is drained and
    closed; the copy error wins over the close error. *)
Definition discard (attempt : Z) (resp : option Response)
  : list event * option error :=
  match resp with
  | None => ([], None)
  | Some r =>
      ([EvCopy attempt; EvClose attempt],
       match copyErr r with
       | Some e => Some (Errorf "failed to discard response body: %w" e [])
       | None =>
           match closeErr r with
           | Some e => Some (Errorf "failed to close response body: %w" e [])
           | None => None
           end
       end)
  end.

(** Lines 128-137: the terminal error once the budget is used up. *)
Definition exhausted (resp : option Response) (err : option error)
  : error :=
  match err with
  | Some e => Errorf "all retries failed; last error: %w" e []
  | None =>
      match resp with
      | Some r =>
          Errorf "%w: last attempt failed with status %d"
                 ErrAllRetriesFailed [StatusCode r]
      | None => ErrAllRetriesFailed
      end
  end.

(** One pass through the body of the [for] loop (lines 88-138). *)
Definition iteration (attempt : Z) (req : Request)
  : list event * Request * control :=
  match rewind attempt req with
  | (ev0, req, Some err) =>
      (ev0, req,
       Return (Err (Errorf "failed to get request body for retry: %w"
                           err [])))
  | (ev0, req, None) =>
      let ev1 := ev0 ++ [EvSend attempt (Body req)] in
      let '(resp, err) := transport attempt in
      match succeeded resp err with
      | Some r => (ev1, req, Return r)
      | None =>
          match discard attempt resp with
          | (ev2, Some e) => (ev1 ++ ev2, req, Return (Err e))
          | (ev2, None) =>
              if attempt <? MaxRetries then
                let delay := retryStrategy attempt in
                (ev1 ++ ev2 ++ [EvPrintf (attempt + 1) delay; EvSleep delay],
                 req, Continue)
              else
                (ev1 ++ ev2, req, Return (Err (exhausted resp err)))
          end
      end
  end.

(** The [for] loop from a given attempt index on, and the fallback
    return after it (line 143).  [fuel] bounds the number of passes;
    [None] only when it runs out. *)
Fixpoint loop (fuel : nat) (attempt : Z) (req : Request)
  : option (list event * result) :=
  if attempt <=? MaxRetries then
    match fuel with
    | O => None
    | S fuel' =>
        match iteration attempt req with
        | (ev, _, Return r) => Some (ev, r)
        | (ev, req', Continue) =>
            match loop fuel' (attempt + 1) req' with
            | Some (tr, r) => Some (ev ++ tr, r)
            | None => None
            end
        end
    end
  else Some ([], Err ErrAllRetriesFailed).

End RoundTrip.

(** The strategy used when none is configured:
    [ExponentialBackoff(500*time.Millisecond, 10*time.Second)]. *)
Definition defaultStrategy : RetryStrategy :=
  ExponentialBackoff (500 * 1000000) (10 * 1000000000).

(** Lines 76-85: the nil checks on the configured transport and
    strategy.  [DefaultTransport] is [http.DefaultTransport]. *)
Definition transportOf (DefaultTransport : RoundTripper)
  (r : retryTransport.t) : RoundTripper :=
  match retryTransport.Transport r with
  | Some t => t
  | None => DefaultTransport
  end.

Definition strategyOf (r : retryTransport.t) : RetryStrategy :=
  match retryTransport.RetryStrategy r with
  | Some s => s
  | None => defaultStrategy
  end.

(** The method [RoundTrip] of [retryTransport].  The loop never needs
    more than [MaxRetries + 1] passes. *)
Definition RoundTrip (DefaultTransport : RoundTripper)
  (r : retryTransport.t) (req : Request) : option (list event * result) :=
  loop (transportOf DefaultTransport r) (strategyOf r)
       (retryTransport.MaxRetries r)
       (Z.to_nat (retryTransport.MaxRetries r + 1)) 0 req.

(** ** Vocabulary of the properties *)

(** A send is retryable: a transport error, or a response whose status
    is 500 or above. *)
Definition retryable (o : option Response * option error) : Prop :=
  match o with
  | (_, Some _) => True
  | (Some r, None) => StatusInternalServerError <= StatusCode r
  | (None, None) => False
  end.

(** Draining and closing the response of a send, if there is one, raise
    no error. *)
Definition released (o : option Response * option error) : Prop :=
  match fst o with
  | Some r => copyErr r = None /\ closeErr r = None
  | None => True
  end.

(** Every call of [GetBody] made during the attempts [from..to] yields a
    body. *)
Definition rewinds_ok (req : Request) (from to : Z) : Prop :=
  match GetBody req with
  | Some getBody => forall k, from <= k <= to -> snd (getBody k) = None
  | None => True
  end.

(** The exhaustion error that names a status code. *)
Definition carries_status (e : error) (code : Z) : Prop :=
  e = Errorf "%w: last attempt failed with status %d"
             ErrAllRetriesFailed [code].

(** The ways one pass through the loop body can go. *)
Inductive iteration_view (transport : RoundTripper)
  (retryStrategy : RetryStrategy) (MaxRetries attempt : Z) (req : Request)
  : list event * Request * control -> Prop :=
| view_rewind_failed ev0 req1 e :
    rewind attempt req = (ev0, req1, Some e) ->
    iteration_view transport retryStrategy MaxRetries attempt req
      (ev0, req1,
       Return (Err (Errorf "failed to get request body for retry: %w" e [])))
| view_returned ev0 req1 r :
    rewind attempt req = (ev0, req1, None) ->
    succeeded (fst (transport attempt)) (snd (transport attempt)) = Some r ->
    iteration_view transport retryStrategy MaxRetries attempt req
      (ev0 ++ [EvSend attempt (Body req1)], req1, Return r)
| view_discard_failed ev0 req1 ev2 e :
    rewind attempt req = (ev0, req1, None) ->
    succeeded (fst (transport attempt)) (snd (transport attempt)) = None ->
    discard attempt (fst (transport attempt)) = (ev2, Some e) ->
    iteration_view transport retryStrategy MaxRetries attempt req
      ((ev0 ++ [EvSend attempt (Body req1)]) ++ ev2, req1, Return (Err e))
| view_continue ev0 req1 ev2 :
    rewind attempt req = (ev0, req1, None) ->
    succeeded (fst (transport attempt)) (snd (transport attempt)) = None ->
    discard attempt (fst (transport attempt)) = (ev2, None) ->
    attempt < MaxRetries ->
    iteration_view transport retryStrategy MaxRetries attempt req
      ((ev0 ++ [EvSend attempt (Body req1)]) ++ ev2
       ++ [EvPrintf (attempt + 1) (retryStrategy attempt);
           EvSleep (retryStrategy attempt)],
       req1, Continue)
| view_exhausted ev0 req1 ev2 :
    rewind attempt req = (ev0, req1, None) ->
    succeeded (fst (transport attempt)) (snd (transport attempt)) = None ->
    discard attempt (fst (transport attempt)) = (ev2, None) ->
    MaxRetries <= attempt ->
    iteration_view transport retryStrategy MaxRetries attempt req
      ((ev0 ++ [EvSend attempt (Body req1)]) ++ ev2, req1,
       Return (Err (exhausted (fst (transport attempt))
                              (snd (transport attempt))))).

(** ** Sample collaborators *)

Module Sample.

(** A response with the given status whose body drains and closes. *)
Definition plain (code : Z) : Response :=
  {| StatusCode := code; copyErr := None; closeErr := None |}.

(** A 500 response whose body cannot be read to its end. *)
Definition unreadable : Response :=
  {| StatusCode := 500; copyErr := Some (External 7); closeErr := None |}.

(** A 500 response whose body drains but does not close. *)
Definition unclosable : Response :=
  {| StatusCode := 500; copyErr := None; closeErr := Some (External 8) |}.

Definition always (resp : Response) : RoundTripper :=
  fun _ => (Some resp, None).

(** A transport that never gets a response. *)
Definition refused : RoundTripper :=
  fun _ => (None, Some (External 1)).

(** Three 503 responses, then 200. *)
Definition flaky : RoundTripper :=
  fun attempt =>
    if attempt <? 3 then (Some (plain 503), None)
    else (Some (plain 200), None).

Definition noBody : Request := {| Body := None; GetBody := None |}.

(** A request whose body can be rewound at every attempt. *)
Definition replayable : Request :=
  {| Body := Some 0%nat;
     GetBody := Some (fun attempt => (Some (S (Z.to_nat attempt)), None)) |}.

(** A request whose rewind fails from the second attempt on. *)
Definition stale : Request :=
  {| Body := Some 0%nat;
     GetBody := Some (fun attempt =>
                        if attempt <? 1 then (Some 1%nat, None)
                        else (None, Some (External 9))) |}.

(** A request with a body and no [GetBody]. *)
Definition oneShot : Request := {| Body := Some 0%nat; GetBody := None |}.

Definition retrier (t : RoundTripper) (maxRetries : Z) : retryTransport.t :=
  {| retryTransport.Transport := Some t;
     retryTransport.MaxRetries := maxRetries;
     retryTransport.RetryStrategy := Some (FixedDelay 7) |}.

End Sample.

(** ** [NewClient] *)

(** [NewClient]: the [retryTransport] placed in the returned
    [http.Client], after the nil checks on the strategy and on the base
    transport. *)
Definition NewClient (DefaultTransport : RoundTripper) (maxRetries : Z)
  (strategy : option RetryStrategy) (baseTransport : option RoundTripper)
  : retryTransport.t :=
  let baseTransport :=
    match baseTransport with
    | Some t => t
    | None => DefaultTransport
    end in
  let strategy :=
    match strategy with
    | Some s => s
    | None => ExponentialBackoff (500 * 1000000) (10 * 1000000000)
    end in
  {| retryTransport.Transport := Some baseTransport;
     retryTransport.MaxRetries := maxRetries;
     retryTransport.RetryStrategy := Some strategy |}.

(** ** The client builder ([http_client.go]) *)

Definition Millisecond : Z := 1000000.
Definition Second : Z := 1000000000.

Definition ValidMaxIdleConns : Z := 200.
Definition ValidMinIdleConns : Z := 1.
Definition ValidMaxIdleConnsPerHost : Z := 200.
Definition ValidMinIdleConnsPerHost : Z := 1.
Definition ValidMaxIdleConnTimeout : Z := 120 * Second.
Definition ValidMinIdleConnTimeout : Z := 1 * Second.
Definition ValidMaxTLSHandshakeTimeout : Z := 15 * Second.
Definition ValidMinTLSHandshakeTimeout : Z := 1 * Second.
Definition ValidMaxExpectContinueTimeout : Z := 5 * Second.
Definition ValidMinExpectContinueTimeout : Z := 1 * Second.
Definition ValidMaxTimeout : Z := 30 * Second.
Definition ValidMinTimeout : Z := 1 * Second.
Definition ValidMaxRetries : Z := 10.
Definition ValidMinRetries : Z := 1.
Definition ValidMaxBaseDelay : Z := 5 * Second.
Definition ValidMinBaseDelay : Z := 300 * Millisecond.
Definition ValidMaxMaxDelay : Z := 120 * Second.
Definition ValidMinMaxDelay : Z := 300 * Millisecond.

Definition DefaultMaxRetries : Z := 3.
Definition DefaultBaseDelay : Z := 500 * Millisecond.
Definition DefaultMaxDelay : Z := 10 * Second.
Definition DefaultMaxIdleConns : Z := 100.
Definition DefaultIdleConnTimeout : Z := 90 * Second.
Definition DefaultTLSHandshakeTimeout : Z := 10 * Second.
Definition DefaultExpectContinueTimeout : Z := 1 * Second.
Definition DefaultDisableKeepAlives : bool := false.
Definition DefaultMaxIdleConnsPerHost : Z := 100.
Definition DefaultTimeout : Z := 5 * Second.

(** [type Strategy string] *)
Definition Strategy : Type := string.

Definition FixedDelayStrategy : Strategy := "fixed"%string.
Definition JitterBackoffStrategy : Strategy := "jitter"%string.
Definition ExponentialBackoffStrategy : Strategy := "exponential"%string.

(** The method [IsValid] of [Strategy]. *)
Definition IsValid (s : Strategy) : bool :=
  String.eqb s FixedDelayStrategy
  || String.eqb s JitterBackoffStrategy
  || String.eqb s ExponentialBackoffStrategy.

Record Client : Type := {
  maxIdleConns : Z;
  idleConnTimeout : Z;
  tlsHandshakeTimeout : Z;
  expectContinueTimeout : Z;
  disableKeepAlives : bool;
  maxIdleConnsPerHost : Z;
  timeout : Z;
  maxRetries : Z;
  retryStrategyType : Strategy;
  retryBaseDelay : Z;
  retryMaxDelay : Z
}.

(** Assignments to the fields of the client a builder holds. *)
Definition set_maxIdleConns (v : Z) (c : Client) : Client :=
  {| maxIdleConns := v;
     idleConnTimeout := idleConnTimeout c;
     tlsHandshakeTimeout := tlsHandshakeTimeout c;
     expectContinueTimeout := expectContinueTimeout c;
     disableKeepAlives := disableKeepAlives c;
     maxIdleConnsPerHost := maxIdleConnsPerHost c;
     timeout := timeout c;
     maxRetries := maxRetries c;
     retryStrategyType := retryStrategyType c;
     retryBaseDelay := retryBaseDelay c;
     retryMaxDelay := retryMaxDelay c |}.

Definition set_idleConnTimeout (v : Z) (c : Client) : Client :=
  {| maxIdleConns := maxIdleConns c;
     idleConnTimeout := v;
     tlsHandshakeTimeout := tlsHandshakeTimeout c;
     expectContinueTimeout := expectContinueTimeout c;
     disableKeepAlives := disableKeepAlives c;
     maxIdleConnsPerHost := maxIdleConnsPerHost c;
     timeout := timeout c;
     maxRetries := maxRetries c;
     retryStrategyType := retryStrategyType c;
     retryBaseDelay := retryBaseDelay c;
     retryMaxDelay := retryMaxDelay c |}.

Definition set_tlsHandshakeTimeout (v : Z) (c : Client) : Client :=
  {| maxIdleConns := maxIdleConns c;
     idleConnTimeout := idleConnTimeout c;
     tlsHandshakeTimeout := v;
     expectContinueTimeout := expectContinueTimeout c;
     disableKeepAlives := disableKeepAlives c;
     maxIdleConnsPerHost := maxIdleConnsPerHost c;
     timeout := timeout c;
     maxRetries := maxRetries c;
     retryStrategyType := retryStrategyType c;
     retryBaseDelay := retryBaseDelay c;
     retryMaxDelay := retryMaxDelay c |}.

Definition set_expectContinueTimeout (v : Z) (c : Client) : Client :=
  {| maxIdleConns := maxIdleConns c;
     idleConnTimeout := idleConnTimeout c;
     tlsHandshakeTimeout := tlsHandshakeTimeout c;
     expectContinueTimeout := v;
     disableKeepAlives := disableKeepAlives c;
     maxIdleConnsPerHost := maxIdleConnsPerHost c;
     timeout := timeout c;
     maxRetries := maxRetries c;
     retryStrategyType := retryStrategyType c;
     retryBaseDelay := retryBaseDelay c;
     retryMaxDelay := retryMaxDelay c |}.

Definition set_disableKeepAlives (v : bool) (c : Client) : Client :=
  {| maxIdleConns := maxIdleConns c;
     idleConnTimeout := idleConnTimeout c;
     tlsHandshakeTimeout := tlsHandshakeTimeout c;
     expectContinueTimeout := expectContinueTimeout c;
     disableKeepAlives := v;
     maxIdleConnsPerHost := maxIdleConnsPerHost c;
     timeout := timeout c;
     maxRetries := maxRetries c;
     retryStrategyType := retryStrategyType c;
     retryBaseDelay := retryBaseDelay c;
     retryMaxDelay := retryMaxDelay c |}.

Definition set_maxIdleConnsPerHost (v : Z) (c : Client) : Client :=
  {| maxIdleConns := maxIdleConns c;
     idleConnTimeout := idleConnTimeout c;
     tlsHandshakeTimeout := tlsHandshakeTimeout c;
     expectContinueTimeout := expectContinueTimeout c;
     disableKeepAlives := disableKeepAlives c;
     maxIdleConnsPerHost := v;
     timeout := timeout c;
     maxRetries := maxRetries c;
     retryStrategyType := retryStrategyType c;
     retryBaseDelay := retryBaseDelay c;
     retryMaxDelay := retryMaxDelay c |}.

Definition set_timeout (v : Z) (c : Client) : Client :=
  {| maxIdleConns := maxIdleConns c;
     idleConnTimeout := idleConnTimeout c;
     tlsHandshakeTimeout := tlsHandshakeTimeout c;
     expectContinueTimeout := expectContinueTimeout c;
     disableKeepAlives := disableKeepAlives c;
     maxIdleConnsPerHost := maxIdleConnsPerHost c;
     timeout := v;
     maxRetries := maxRetries c;
     retryStrategyType := retryStrategyType c;
     retryBaseDelay := retryBaseDelay c;
     retryMaxDelay := retryMaxDelay c |}.

Definition set_maxRetries (v : Z) (c : Client) : Client :=
  {| maxIdleConns := maxIdleConns c;
     idleConnTimeout := idleConnTimeout c;
     tlsHandshakeTimeout := tlsHandshakeTimeout c;
     expectContinueTimeout := expectContinueTimeout c;
     disableKeepAlives := disableKeepAlives c;
     maxIdleConnsPerHost := maxIdleConnsPerHost c;
     timeout := timeout c;
     maxRetries := v;
     retryStrategyType := retryStrategyType c;
     retryBaseDelay := retryBaseDelay c;
     retryMaxDelay := retryMaxDelay c |}.

Definition set_retryStrategyType (v : Strategy) (c : Client) : Client :=
  {| maxIdleConns := maxIdleConns c;
     idleConnTimeout := idleConnTimeout c;
     tlsHandshakeTimeout := tlsHandshakeTimeout c;
     expectContinueTimeout := expectContinueTimeout c;
     disableKeepAlives := disableKeepAlives c;
     maxIdleConnsPerHost := maxIdleConnsPerHost c;
     timeout := timeout c;
     maxRetries := maxRetries c;
     retryStrategyType := v;
     retryBaseDelay := retryBaseDelay c;
     retryMaxDelay := retryMaxDelay c |}.

Definition set_retryBaseDelay (v : Z) (c : Client) : Client :=
  {| maxIdleConns := maxIdleConns c;
     idleConnTimeout := idleConnTimeout c;
     tlsHandshakeTimeout := tlsHandshakeTimeout c;
     expectContinueTimeout := expectContinueTimeout c;
     disableKeepAlives := disableKeepAlives c;
     maxIdleConnsPerHost := maxIdleConnsPerHost c;
     timeout := timeout c;
     maxRetries := maxRetries c;
     retryStrategyType := retryStrategyType c;
     retryBaseDelay := v;
     retryMaxDelay := retryMaxDelay c |}.

Definition set_retryMaxDelay (v : Z) (c : Client) : Client :=
  {| maxIdleConns := maxIdleConns c;
     idleConnTimeout := idleConnTimeout c;
     tlsHandshakeTimeout := tlsHandshakeTimeout c;
     expectContinueTimeout := expectContinueTimeout c;
     disableKeepAlives := disableKeepAlives c;
     maxIdleConnsPerHost := maxIdleConnsPerHost c;
     timeout := timeout c;
     maxRetries := maxRetries c;
     retryStrategyType := retryStrategyType c;
     retryBaseDelay := retryBaseDelay c;
     retryMaxDelay := v |}.

(** [ClientBuilder] holds one client, which its methods update in place
    and [Build] reads; the state of that client is threaded through. *)
Record ClientBuilder : Type := { client : Client }.

Definition NewClientBuilder : ClientBuilder :=
  {| client :=
       {| maxIdleConns := DefaultMaxIdleConns;
          idleConnTimeout := DefaultIdleConnTimeout;
          tlsHandshakeTimeout := DefaultTLSHandshakeTimeout;
          expectContinueTimeout := DefaultExpectContinueTimeout;
          disableKeepAlives := DefaultDisableKeepAlives;
          maxIdleConnsPerHost := DefaultMaxIdleConnsPerHost;
          timeout := DefaultTimeout;
          maxRetries := DefaultMaxRetries;
          retryStrategyType := ExponentialBackoffStrategy;
          retryBaseDelay := DefaultBaseDelay;
          retryMaxDelay := DefaultMaxDelay |} |}.

Definition WithMaxIdleConns (v : Z) (b : ClientBuilder) : ClientBuilder :=
  {| client := set_maxIdleConns v (client b) |}.

Definition WithIdleConnTimeout (v : Z) (b : ClientBuilder) : ClientBuilder :=
  {| client := set_idleConnTimeout v (client b) |}.

Definition WithTLSHandshakeTimeout (v : Z) (b : ClientBuilder)
  : ClientBuilder :=
  {| client := set_tlsHandshakeTimeout v (client b) |}.

Definition WithExpectContinueTimeout (v : Z) (b : ClientBuilder)
  : ClientBuilder :=
  {| client := set_expectContinueTimeout v (client b) |}.

Definition WithDisableKeepAlives (v : bool) (b : ClientBuilder)
  : ClientBuilder :=
  {| client := set_disableKeepAlives v (client b) |}.

Definition WithMaxIdleConnsPerHost (v : Z) (b : ClientBuilder)
  : ClientBuilder :=
  {| client := set_maxIdleConnsPerHost v (client b) |}.

Definition WithTimeout (v : Z) (b : ClientBuilder) : ClientBuilder :=
  {| client := set_timeout v (client b) |}.

Definition WithMaxRetries (v : Z) (b : ClientBuilder) : ClientBuilder :=
  {| client := set_maxRetries v (client b) |}.

Definition WithRetryBaseDelay (v : Z) (b : ClientBuilder) : ClientBuilder :=
  {| client := set_retryBaseDelay v (client b) |}.

Definition WithRetryMaxDelay (v : Z) (b : ClientBuilder) : ClientBuilder :=
  {| client := set_retryMaxDelay v (client b) |}.

Definition WithRetryStrategy (v : Strategy) (b : ClientBuilder)
  : ClientBuilder :=
  {| client := set_retryStrategyType v (client b) |}.

(** The values handed to [slog.Warn], and one logged warning: its
    message and its key-value pairs. *)
Inductive value : Type :=
| VInt (n : Z)
| VDuration (d : Z)
| VStrategy (s : Strategy)
| VString (s : string).

Record warning : Type := Warn {
  message : string;
  attrs : list (string * value)
}.

Definition attr (key : string) (v : value) : string * value := (key, v).

(** [WithRetryStrategyAsString]: an unknown name is logged and replaced
    by the exponential strategy before it is stored. *)
Definition WithRetryStrategyAsString (retryStrategy : string)
  (b : ClientBuilder) : ClientBuilder * list warning :=
  let strategy : Strategy := retryStrategy in
  let '(strategy, ws) :=
    if negb (IsValid strategy) then
      (ExponentialBackoffStrategy,
       [Warn "Invalid retry strategy type, using default (Exponential)"
             [attr "invalidValue" (VString retryStrategy);
              attr "defaultValue" (VStrategy ExponentialBackoffStrategy)]])
    else (strategy, []) in
  ({| client := set_retryStrategyType strategy (client b) |}, ws).

(** The [http.Transport] that [Build] configures. *)
Module httpTransport.
Record t : Type := {
  MaxIdleConns : Z;
  IdleConnTimeout : Z;
  TLSHandshakeTimeout : Z;
  ExpectContinueTimeout : Z;
  DisableKeepAlives : bool;
  MaxIdleConnsPerHost : Z
}.
End httpTransport.

(** The strategy function [Build] creates, known by the constructor that
    made it and the arguments it closed over. *)
Inductive strategyValue : Type :=
| FixedDelayOf (delay : Z)
| JitterBackoffOf (base maxDelay : Z)
| ExponentialBackoffOf (base maxDelay : Z).

(** A call of such a function, given the draw of the random source;
    [None] is the panic of the jitter strategy. *)
Definition callStrategy (s : strategyValue) (raw attempt : Z) : option Z :=
  match s with
  | FixedDelayOf delay => Some (FixedDelay delay attempt)
  | JitterBackoffOf base maxDelay => JitterBackoff base maxDelay raw attempt
  | ExponentialBackoffOf base maxDelay =>
      Some (ExponentialBackoff base maxDelay attempt)
  end.

(** The [http.Client] that [Build] returns: its timeout and the
    [retryTransport] it is given, whose transport is the configured
    [http.Transport]. *)
Module httpClient.
Record t : Type := {
  Timeout : Z;
  Transport : httpTransport.t;
  MaxRetries : Z;
  RetryStrategy : strategyValue
}.
End httpClient.

(** One validation block of [Build]: a setting outside [lo..hi] is
    logged and replaced by its default. *)
Definition check (get : Client -> Z) (set : Z -> Client -> Client)
  (lo hi dflt : Z) (msg : string) (show : Z -> value)
  (st : Client * list warning) : Client * list warning :=
  let '(c, ws) := st in
  if (get c <? lo) || (hi <? get c) then
    (set dflt c,
     ws ++ [Warn msg [attr "invalidValue" (show (get c));
                      attr "defaultValue" (show dflt)]])
  else (c, ws).

(** [Build]: the builder as it is left, the warnings logged, and the
    client returned. *)
Definition Build (b : ClientBuilder)
  : ClientBuilder * list warning * httpClient.t :=
  let st := (client b, []) in
  let st := check maxIdleConns set_maxIdleConns
              ValidMinIdleConns ValidMaxIdleConns DefaultMaxIdleConns
              "Invalid max idle connections, using default value" VInt st in
  let st := check idleConnTimeout set_idleConnTimeout
              ValidMinIdleConnTimeout ValidMaxIdleConnTimeout
              DefaultIdleConnTimeout
              "Invalid idle connection timeout, using default value"
              VDuration st in
  let st := check tlsHandshakeTimeout set_tlsHandshakeTimeout
              ValidMinTLSHandshakeTimeout ValidMaxTLSHandshakeTimeout
              DefaultTLSHandshakeTimeout
              "Invalid TLS handshake timeout, using default value"
              VDuration st in
  let st := check expectContinueTimeout set_expectContinueTimeout
              ValidMinExpectContinueTimeout ValidMaxExpectContinueTimeout
              DefaultExpectContinueTimeout
              "Invalid expect continue timeout, using default value"
              VDuration st in
  let st := check maxIdleConnsPerHost set_maxIdleConnsPerHost
              ValidMinIdleConnsPerHost ValidMaxIdleConnsPerHost
              DefaultMaxIdleConnsPerHost
              "Invalid max idle connections per host, using default value"
              VInt st in
  let st := check timeout set_timeout
              ValidMinTimeout ValidMaxTimeout DefaultTimeout
              "Invalid timeout, using default value" VDuration st in
  let st := check maxRetries set_maxRetries
              ValidMinRetries ValidMaxRetries DefaultMaxRetries
              "Invalid max retries, using default value" VInt st in
  let st := check retryBaseDelay set_retryBaseDelay
              ValidMinBaseDelay ValidMaxBaseDelay DefaultBaseDelay
              "Invalid base delay, using default value" VDuration st in
  let st := check retryMaxDelay set_retryMaxDelay
              ValidMinMaxDelay ValidMaxMaxDelay DefaultMaxDelay
              "Invalid max delay, using default value" VDuration st in
  let '(c, ws) := st in
  (* the final strategy type is a local: the stored one is left alone *)
  let finalStrategyType := retryStrategyType c in
  let '(finalStrategyType, ws) :=
    if String.eqb finalStrategyType FixedDelayStrategy
       || String.eqb finalStrategyType JitterBackoffStrategy
       || String.eqb finalStrategyType ExponentialBackoffStrategy
    then (finalStrategyType, ws)
    else
      (ExponentialBackoffStrategy,
       ws ++ [Warn "No valid retry strategy type set, using default (Exponential)"
                   [attr "currentType" (VStrategy finalStrategyType)]]) in
  let finalRetryStrategy :=
    if String.eqb finalStrategyType FixedDelayStrategy then
      FixedDelayOf (retryBaseDelay c)
    else if String.eqb finalStrategyType JitterBackoffStrategy then
      JitterBackoffOf (retryBaseDelay c) (retryMaxDelay c)
    else if String.eqb finalStrategyType ExponentialBackoffStrategy then
      ExponentialBackoffOf (retryBaseDelay c) (retryMaxDelay c)
    else
      ExponentialBackoffOf (retryBaseDelay c) (retryMaxDelay c) in
  let transport :=
    {| httpTransport.MaxIdleConns := maxIdleConns c;
       httpTransport.IdleConnTimeout := idleConnTimeout c;
       httpTransport.TLSHandshakeTimeout := tlsHandshakeTimeout c;
       httpTransport.ExpectContinueTimeout := expectContinueTimeout c;
       httpTransport.DisableKeepAlives := disableKeepAlives c;
       httpTransport.MaxIdleConnsPerHost := maxIdleConnsPerHost c |} in
  ({| client := c |}, ws,
   {| httpClient.Timeout := timeout c;
      httpClient.Transport := transport;
      httpClient.MaxRetries := maxRetries c;
      httpClient.RetryStrategy := finalRetryStrategy |}).

(** ** Vocabulary of the builder's properties *)

(** Every numeric setting of a client lies in its valid range. *)
Definition settings_valid (c : Client) : Prop :=
  ValidMinIdleConns <= maxIdleConns c <= ValidMaxIdleConns
  /\ ValidMinIdleConnTimeout <= idleConnTimeout c <= ValidMaxIdleConnTimeout
  /\ ValidMinTLSHandshakeTimeout <= tlsHandshakeTimeout c
     <= ValidMaxTLSHandshakeTimeout
  /\ ValidMinExpectContinueTimeout <= expectContinueTimeout c
     <= ValidMaxExpectContinueTimeout
  /\ ValidMinIdleConnsPerHost <= maxIdleConnsPerHost c
     <= ValidMaxIdleConnsPerHost
  /\ ValidMinTimeout <= timeout c <= ValidMaxTimeout
  /\ ValidMinRetries <= maxRetries c <= ValidMaxRetries
  /\ ValidMinBaseDelay <= retryBaseDelay c <= ValidMaxBaseDelay
  /\ ValidMinMaxDelay <= retryMaxDelay c <= ValidMaxMaxDelay.

(** The [retryTransport] of a built client, once the behaviour of its
    [http.Transport] and the delays its strategy yields are given. *)
Definition retrierOf (behaviour : RoundTripper) (delays : RetryStrategy)
  (hc : httpClient.t) : retryTransport.t :=
  {| retryTransport.Transport := Some behaviour;
     retryTransport.MaxRetries := httpClient.MaxRetries hc;
     retryTransport.RetryStrategy := Some delays |}.

(** What a validation block of [Build] leaves in a setting: the value
    itself inside [lo..hi], the default outside. *)
Definition clamp (lo hi dflt v : Z) : Z :=
  if (v <? lo) || (hi <? v) then dflt else v.

(** The warning a validation block logs for a setting out of range. *)
Definition warned (lo hi dflt : Z) (msg : string) (show : Z -> value)
  (v : Z) : list warning :=
  if (v <? lo) || (hi <? v) then
    [Warn msg [attr "invalidValue" (show v); attr "defaultValue" (show dflt)]]
  else [].

(** A client with each numeric setting put through its validation
    block. *)
Definition normalise (c : Client) : Client :=
  {| maxIdleConns :=
       clamp ValidMinIdleConns ValidMaxIdleConns DefaultMaxIdleConns
             (maxIdleConns c);
     idleConnTimeout :=
       clamp ValidMinIdleConnTimeout ValidMaxIdleConnTimeout
             DefaultIdleConnTimeout (idleConnTimeout c);
     tlsHandshakeTimeout :=
       clamp ValidMinTLSHandshakeTimeout ValidMaxTLSHandshakeTimeout
             DefaultTLSHandshakeTimeout (tlsHandshakeTimeout c);
     expectContinueTimeout :=
       clamp ValidMinExpectContinueTimeout ValidMaxExpectContinueTimeout
             DefaultExpectContinueTimeout (expectContinueTimeout c);
     disableKeepAlives := disableKeepAlives c;
     maxIdleConnsPerHost :=
       clamp ValidMinIdleConnsPerHost ValidMaxIdleConnsPerHost
             DefaultMaxIdleConnsPerHost (maxIdleConnsPerHost c);
     timeout := clamp ValidMinTimeout ValidMaxTimeout DefaultTimeout (timeout c);
     maxRetries :=
       clamp ValidMinRetries ValidMaxRetries DefaultMaxRetries (maxRetries c);
     retryStrategyType := retryStrategyType c;
     retryBaseDelay :=
       clamp ValidMinBaseDelay ValidMaxBaseDelay DefaultBaseDelay
             (retryBaseDelay c);
     retryMaxDelay :=
       clamp ValidMinMaxDelay ValidMaxMaxDelay DefaultMaxDelay
             (retryMaxDelay c) |}.

(** The warning [Build] logs for a strategy type it does not know. *)
Definition warnedStrategy (s : Strategy) : list warning :=
  if IsValid s then []
  else [Warn "No valid retry strategy type set, using default (Exponential)"
             [attr "currentType" (VStrategy s)]].

(** The draws [rand.Int63n(n)] accepts: it rejects the top
    [2^63 mod n] values of the 63-bit range of the generator, so the
    accepted draws are [0 .. Int63n_accepted n - 1]. *)
Definition Int63n_accepted (n : Z) : Z := 2 ^ 63 - (2 ^ 63) mod n.

(** The body the request carries when attempt [n] starts, the rewinds
    before it having succeeded: line 95 puts the copy in its place each
    time the rewind of lines 90-96 applies, that is whenever the body at
    hand is not nil and [GetBody] is defined. *)
Fixpoint bodyAt (req : Request) (n : nat) : body :=
  match n with
  | O => Body req
  | S m =>
      match bodyAt req m, GetBody req with
      | Some _, Some getBody => fst (getBody (Z.of_nat m))
      | b, _ => b
      end
  end.

(** Attempt [k] took place in a run: the trace names it. *)
Definition took_place (k : Z) (tr : list event) : Prop :=
  exists e, In e tr /\ attempt_of e = Some k.

(** ** Arithmetic of the wrap-around *)

Section Wrap.

Import Int64.

Lemma two64_pos : 0 < 2 ^ 64.
Proof. reflexivity. Qed.

Lemma wrap_in_range (z : Z) : in_range (wrap z).
Proof.
  unfold in_range, wrap, min_int, max_int.
  pose proof (Z.mod_pos_bound (z + 2 ^ 63) (2 ^ 64) two64_pos) as Hb.
  change (2 ^ 64) with (2 * 2 ^ 63) in *. lia.
Qed.

Lemma wrap_id (z : Z) : in_range z -> wrap z = z.
Proof.
  unfold in_range, wrap, min_int, max_int. intros Hz.
  rewrite Z.mod_small; [lia|].
  change (2 ^ 64) with (2 * 2 ^ 63). lia.
Qed.

(** A wrapped value differs from the exact one by a multiple of 2^64. *)
Lemma wrap_decompose (z : Z) : exists k, wrap z = z + k * 2 ^ 64.
Proof.
  exists (- ((z + 2 ^ 63) / 2 ^ 64)). unfold wrap.
  pose proof (Z.div_mod (z + 2 ^ 63) (2 ^ 64)) as Hd.
  assert (2 ^ 64 <> 0) as Hnz by (pose proof two64_pos; lia).
  specialize (Hd Hnz). lia.
Qed.

Lemma wrap_shift (z k : Z) : wrap (z + k * 2 ^ 64) = wrap z.
Proof.
  unfold wrap.
  replace (z + k * 2 ^ 64 + 2 ^ 63) with (z + 2 ^ 63 + k * 2 ^ 64) by lia.
  now rewrite Z.mod_add by (pose proof two64_pos; lia).
Qed.

Lemma wrap_mul_wrap_r (a b : Z) : wrap (a * wrap b) = wrap (a * b).
Proof.
  destruct (wrap_decompose b) as [k Hk]. rewrite Hk.
  replace (a * (b + k * 2 ^ 64)) with (a * b + (a * k) * 2 ^ 64) by lia.
  apply wrap_shift.
Qed.

Lemma to_uint_nonneg (x : Z) : 0 <= x <= max_int -> to_uint x = x.
Proof.
  unfold to_uint, max_int. intros Hx. apply Z.mod_small.
  change (2 ^ 64) with (2 * 2 ^ 63). lia.
Qed.

Lemma to_uint_neg (x : Z) : min_int <= x < 0 -> 64 <= to_uint x.
Proof.
  unfold to_uint, min_int. intros Hx.
  replace x with (x + 2 ^ 64 + (-1) * 2 ^ 64) by lia.
  rewrite Z.mod_add by (pose proof two64_pos; lia).
  rewrite Z.mod_small; change (2 ^ 64) with (2 * 2 ^ 63) in *;
    assert (64 < 2 ^ 63) by reflexivity; lia.
Qed.

(** The shifted one, multiplied and wrapped, is the wrapped product with
    the mathematical power of two. *)
Lemma wrap_mul_shl_one (b a : Z) :
  0 <= a <= max_int ->
  wrap (b * shl_one (to_uint a)) = wrap (b * 2 ^ a).
Proof.
  intros Ha. rewrite (to_uint_nonneg a Ha). unfold shl_one.
  destruct (a <? 64) eqn:Hlt.
  - rewrite Z.shiftl_1_l. apply wrap_mul_wrap_r.
  - apply Z.ltb_ge in Hlt.
    assert (2 ^ a = 2 ^ 64 * 2 ^ (a - 64)) as Hpow.
    { rewrite <- Z.pow_add_r by lia. f_equal. lia. }
    rewrite Hpow.
    replace (b * (2 ^ 64 * 2 ^ (a - 64)))
      with (0 + (b * 2 ^ (a - 64)) * 2 ^ 64) by lia.
    rewrite wrap_shift. now rewrite Z.mul_0_r.
Qed.

End Wrap.

(** ** The backoff strategies *)

Section Backoff.

Import Int64.

(** The delay in terms of the mathematical power of two. *)
Lemma ExponentialBackoff_pow (base cap attempt : Z) :
  0 <= attempt <= max_int ->
  ExponentialBackoff base cap attempt =
    if (attempt =? 0) && (cap <? base) then base
    else
      let d := wrap (base * 2 ^ attempt) in
      if (cap <? d) || (d <=? 0) then cap else d.
Proof.
  intros Ha. unfold ExponentialBackoff.
  now rewrite (wrap_mul_shl_one base attempt Ha).
Qed.

(** Outside the escape at attempt 0 the delay never exceeds the cap. *)
Lemma ExponentialBackoff_le_cap (base cap attempt : Z) :
  attempt <> 0 \/ base <= cap ->
  ExponentialBackoff base cap attempt <= cap.
Proof.
  intros Hne. unfold ExponentialBackoff.
  destruct ((attempt =? 0) && (cap <? base)) eqn:Hsp.
  - apply andb_prop in Hsp as [H0 Hlt].
    apply Z.eqb_eq in H0. apply Z.ltb_lt in Hlt. lia.
  - cbv zeta.
    destruct ((cap <? _) || (_ <=? 0)) eqn:Hc; [lia|].
    apply orb_false_elim in Hc as [Hc _]. apply Z.ltb_ge in Hc. exact Hc.
Qed.

(** With a non-negative cap the delay is never negative. *)
Lemma ExponentialBackoff_nonneg (base cap attempt : Z) :
  0 <= cap -> 0 <= ExponentialBackoff base cap attempt.
Proof.
  intros Hcap. unfold ExponentialBackoff.
  destruct ((attempt =? 0) && (cap <? base)) eqn:Hsp.
  - apply andb_prop in Hsp as [_ Hlt]. apply Z.ltb_lt in Hlt. lia.
  - cbv zeta.
    destruct ((cap <? _) || (_ <=? 0)) eqn:Hc; [lia|].
    apply orb_false_elim in Hc as [_ Hc]. apply Z.leb_gt in Hc. lia.
Qed.

(** A wrapped multiple of [2^a] is a multiple of [2^a]. *)
Lemma wrap_mul_pow2_multiple (b a : Z) :
  0 <= a < 64 -> exists m, wrap (b * 2 ^ a) = m * 2 ^ a.
Proof.
  intros Ha. destruct (wrap_decompose (b * 2 ^ a)) as [k Hk].
  exists (b + k * 2 ^ (64 - a)). rewrite Hk.
  assert (2 ^ 64 = 2 ^ (64 - a) * 2 ^ a) as Hs.
  { rewrite <- Z.pow_add_r by lia. f_equal. lia. }
  rewrite Hs. lia.
Qed.

Lemma wrap_mul_pow2_big (b a : Z) : 64 <= a -> wrap (b * 2 ^ a) = 0.
Proof.
  intros Ha.
  assert (2 ^ a = 2 ^ (a - 64) * 2 ^ 64) as Hs.
  { rewrite <- Z.pow_add_r by lia. f_equal. lia. }
  rewrite Hs.
  replace (b * (2 ^ (a - 64) * 2 ^ 64))
    with (0 + (b * 2 ^ (a - 64)) * 2 ^ 64) by lia.
  now rewrite wrap_shift.
Qed.

(** When [base * cap] fits in 63 bits no wrapped product can land in
    [(0, cap]], and the delay is the documented minimum at every
    attempt. *)
Lemma ExponentialBackoff_min (base cap attempt : Z) :
  0 < base -> 0 <= cap -> base * cap < 2 ^ 63 ->
  0 <= attempt <= max_int ->
  ~ (attempt = 0 /\ cap < base) ->
  ExponentialBackoff base cap attempt = Z.min (base * 2 ^ attempt) cap.
Proof.
  intros Hb Hc Hbc Ha Hns.
  rewrite (ExponentialBackoff_pow base cap attempt Ha).
  destruct ((attempt =? 0) && (cap <? base)) eqn:Hsp.
  { apply andb_prop in Hsp as [H0 Hlt].
    apply Z.eqb_eq in H0. apply Z.ltb_lt in Hlt. tauto. }
  clear Hsp. cbv zeta.
  assert (0 < 2 ^ attempt) as Hpow by (apply Z.pow_pos_nonneg; lia).
  destruct (Z_le_gt_dec (base * 2 ^ attempt) max_int) as [Hfit | Hover].
  - rewrite wrap_id by (unfold in_range, min_int, max_int in *; nia).
    assert (0 < base * 2 ^ attempt) as Hp by nia.
    destruct (cap <? base * 2 ^ attempt) eqn:Hlt; cbn [orb].
    + apply Z.ltb_lt in Hlt. lia.
    + apply Z.ltb_ge in Hlt.
      destruct (base * 2 ^ attempt <=? 0) eqn:Hle;
        [apply Z.leb_le in Hle; lia | lia].
  - assert (cap < 2 ^ attempt) as Hcap
        by (unfold max_int in Hover; nia).
    rewrite Z.min_r by nia.
    assert (wrap (base * 2 ^ attempt) <= 0
            \/ cap < wrap (base * 2 ^ attempt)) as Hw.
    { destruct (Z_lt_le_dec attempt 64) as [Hs | Hs].
      - destruct (wrap_mul_pow2_multiple base attempt) as [m Hm]; [lia|].
        rewrite Hm. destruct (Z_le_gt_dec m 0); [left; nia | right; nia].
      - left. rewrite wrap_mul_pow2_big by lia. lia. }
    destruct Hw as [Hw | Hw].
    + apply Z.leb_le in Hw. rewrite Hw. now rewrite orb_true_r.
    + apply Z.ltb_lt in Hw. now rewrite Hw.
Qed.

(** Under the same bound, and with [base <= cap], the delay grows with
    the attempt index until it stays at the cap. *)
Lemma ExponentialBackoff_monotone_small (base cap a b : Z) :
  0 < base -> base <= cap -> base * cap < 2 ^ 63 ->
  0 <= a -> a <= b -> b <= max_int ->
  ExponentialBackoff base cap a <= ExponentialBackoff base cap b <= cap.
Proof.
  intros Hb Hbc Hfit Ha Hab Hbm.
  rewrite !ExponentialBackoff_min by lia.
  assert (2 ^ a <= 2 ^ b) by (apply Z.pow_le_mono_r; lia).
  assert (0 < 2 ^ a) by (apply Z.pow_pos_nonneg; lia).
  split; [apply Z.min_le_compat_r; nia | apply Z.le_min_r].
Qed.

(** The jitter strategy when the exponential delay leaves room for an
    offset and for the sum. *)
Lemma JitterBackoff_offset (base cap raw attempt : Z) :
  let e := ExponentialBackoff base cap attempt in
  2 <= e -> e + Z.quot e 2 <= max_int + 1 ->
  JitterBackoff base cap raw attempt = Some (e + raw mod (Z.quot e 2))
  /\ 0 <= raw mod (Z.quot e 2) < Z.quot e 2.
Proof.
  intros e He Hfit. unfold JitterBackoff, Int63n, div. fold e.
  assert (1 <= Z.quot e 2) as Hq.
  { rewrite Z.quot_div_nonneg by lia.
    apply Z.div_le_lower_bound; lia. }
  assert (2 * Z.quot e 2 <= e) as Hq2.
  { rewrite Z.quot_div_nonneg by lia.
    apply Z.mul_div_le; lia. }
  rewrite (wrap_id (Z.quot e 2))
    by (unfold in_range, min_int, max_int in *; lia).
  destruct (Z.quot e 2 <=? 0) eqn:Hn; [apply Z.leb_le in Hn; lia|].
  pose proof (Z.mod_pos_bound raw (Z.quot e 2)) as Hm.
  split; [|lia].
  rewrite wrap_id; [reflexivity|].
  unfold in_range, min_int, max_int in *. lia.
Qed.

End Backoff.

(** ** Properties of the backoff strategies *)

(** C4 (as the code has it).  For an attempt index [attempt >= 0],
    [ExponentialBackoff base cap]: returns exactly [base] at attempt 0
    when [base > cap]; otherwise returns [min (base * 2^attempt) cap]
    whenever the product is positive and fits a 64-bit duration, and
    returns [cap] whenever the computed 64-bit product is non-positive,
    be it through overflow or because [base <= 0]; and for [base > cap]
    every attempt [>= 1] yields a value [<= cap]. *)
Theorem ExponentialBackoff_spec_amended (base cap attempt : Z) :
  0 <= attempt <= Int64.max_int ->
  (attempt = 0 /\ cap < base ->
     ExponentialBackoff base cap attempt = base)
  /\ (~ (attempt = 0 /\ cap < base) ->
        (0 < base * 2 ^ attempt <= Int64.max_int ->
           ExponentialBackoff base cap attempt
           = Z.min (base * 2 ^ attempt) cap)
        /\ (Int64.wrap (base * 2 ^ attempt) <= 0 ->
              ExponentialBackoff base cap attempt = cap))
  /\ (cap < base -> 1 <= attempt ->
        ExponentialBackoff base cap attempt <= cap).
Proof.
  intros Ha. rewrite (ExponentialBackoff_pow base cap attempt Ha).
  split; [|split].
  - intros [H0 Hlt].
    apply Z.eqb_eq in H0. apply Z.ltb_lt in Hlt. now rewrite H0, Hlt.
  - intros Hns.
    destruct ((attempt =? 0) && (cap <? base)) eqn:Hsp.
    { apply andb_prop in Hsp as [H0 Hlt].
      apply Z.eqb_eq in H0. apply Z.ltb_lt in Hlt. tauto. }
    cbv zeta. split.
    + intros Hp.
      rewrite wrap_id
        by (unfold Int64.in_range, Int64.min_int, Int64.max_int in *; lia).
      destruct (cap <? base * 2 ^ attempt) eqn:Hlt; cbn [orb].
      * apply Z.ltb_lt in Hlt. lia.
      * apply Z.ltb_ge in Hlt.
        destruct (base * 2 ^ attempt <=? 0) eqn:Hle;
          [apply Z.leb_le in Hle; lia | lia].
    + intros Hw. apply Z.leb_le in Hw. rewrite Hw.
      now rewrite orb_true_r.
  - intros Hlt H1.
    rewrite <- (ExponentialBackoff_pow base cap attempt Ha).
    apply ExponentialBackoff_le_cap. lia.
Qed.

Lemma ExponentialBackoff_spec_amended_witness :
  ExponentialBackoff 100 1000 2 = Z.min (100 * 2 ^ 2) 1000
  /\ ExponentialBackoff 3 1 0 = 3
  /\ ExponentialBackoff 3 1 1 <= 1.
Proof.
  assert (0 <= 2 <= Int64.max_int) as H2 by (vm_compute; intuition discriminate).
  assert (0 <= 0 <= Int64.max_int) as H0 by (vm_compute; intuition discriminate).
  assert (0 <= 1 <= Int64.max_int) as H1 by (vm_compute; intuition discriminate).
  split; [|split].
  - apply (ExponentialBackoff_spec_amended 100 1000 2 H2).
    + lia.
    + vm_compute; intuition discriminate.
  - apply (ExponentialBackoff_spec_amended 3 1 0 H0). lia.
  - apply (ExponentialBackoff_spec_amended 3 1 1 H1); lia.
Defined.

(** C4 as stated fails: with [base = 0] nothing overflows, the documented
    value is [min (0 * 2^0) 10 = 0], and the code returns the cap. *)
Lemma ExponentialBackoff_doc_fails_nonpositive_base :
  ExponentialBackoff 0 10 0 = 10
  /\ ExponentialBackoff_doc 0 10 0 = 0
  /\ ExponentialBackoff 0 10 0 <> ExponentialBackoff_doc 0 10 0.
Proof. vm_compute. repeat split; discriminate. Qed.

(** C5 (the code at the failing input).  With [base = 2^32 + 1 <= cap =
    2^33] the product at attempt 31 wraps to a negative value and is
    replaced by the cap, while at attempt 32 it wraps to the positive
    value [2^32], which is returned: the delay decreases from one attempt
    to the next. *)
Theorem ExponentialBackoff_wraps_below_cap :
  2 ^ 32 + 1 <= 2 ^ 33
  /\ ExponentialBackoff (2 ^ 32 + 1) (2 ^ 33) 31 = 2 ^ 33
  /\ ExponentialBackoff (2 ^ 32 + 1) (2 ^ 33) 32 = 2 ^ 32
  /\ ExponentialBackoff (2 ^ 32 + 1) (2 ^ 33) 32
     < ExponentialBackoff (2 ^ 32 + 1) (2 ^ 33) 31.
Proof. vm_compute. repeat split; discriminate. Qed.

(** The accepted draws hold every residue modulo [n] equally often: the
    draws that give the offset [o] are [o], [o + n], [o + 2n], ..., one
    for each of the [Int63n_accepted n / n] multiples of [n]. *)
Lemma Int63n_residues (n o raw : Z) :
  0 < n -> 0 <= o < n -> 0 <= raw < Int63n_accepted n ->
  raw mod n = o
  <-> exists q, 0 <= q < Int63n_accepted n / n /\ raw = o + n * q.
Proof.
  unfold Int63n_accepted. intros Hn Ho Hraw.
  pose proof (Z.div_mod (2 ^ 63) n ltac:(lia)) as Hdm.
  assert (2 ^ 63 - 2 ^ 63 mod n = (2 ^ 63 / n) * n) as HM by lia.
  rewrite HM in *. rewrite Z.div_mul by lia.
  split.
  - intros Hmod. exists (raw / n).
    pose proof (Z.div_mod raw n ltac:(lia)) as Hr.
    split; [|lia]. split; [apply Z.div_pos; lia|].
    apply Z.div_lt_upper_bound; lia.
  - intros (q & Hq & ->).
    rewrite (Z.mul_comm n q), Z_mod_plus_full. apply Z.mod_small. lia.
Qed.

(** C6 (as the code has it).  For every attempt index whose exponential
    delay [e] is at least 2 (so that [e / 2 > 0]) and satisfies
    [e + e / 2 <= 2^63] (so that the sum fits a 64-bit duration),
    [JitterBackoff] returns [e] plus the offset [raw mod (e / 2)] that
    the random source draws from [[0, e / 2)], and the result lies in
    [[e, 1.5 * e)].  The offset is drawn uniformly: each delay [e + o]
    with [o] in [[0, e / 2)] is returned for exactly the accepted draws
    [o + (e / 2) * q], as many for one offset as for another. *)
Theorem JitterBackoff_range (base cap raw attempt : Z) :
  2 <= ExponentialBackoff base cap attempt ->
  ExponentialBackoff base cap attempt
  + Z.quot (ExponentialBackoff base cap attempt) 2 <= Int64.max_int + 1 ->
  exists offset d,
    JitterBackoff base cap raw attempt = Some d
    /\ offset = raw mod Z.quot (ExponentialBackoff base cap attempt) 2
    /\ d = ExponentialBackoff base cap attempt + offset
    /\ 0 <= offset < Z.quot (ExponentialBackoff base cap attempt) 2
    /\ ExponentialBackoff base cap attempt <= d
    /\ 2 * d < 3 * ExponentialBackoff base cap attempt
    /\ forall o raw',
        0 <= o < Z.quot (ExponentialBackoff base cap attempt) 2 ->
        0 <= raw'
        < Int63n_accepted (Z.quot (ExponentialBackoff base cap attempt) 2) ->
        (JitterBackoff base cap raw' attempt
         = Some (ExponentialBackoff base cap attempt + o)
         <-> exists q,
             0 <= q
             < Int63n_accepted (Z.quot (ExponentialBackoff base cap attempt) 2)
               / Z.quot (ExponentialBackoff base cap attempt) 2
             /\ raw'
                = o + Z.quot (ExponentialBackoff base cap attempt) 2 * q).
Proof.
  intros He Hfit.
  destruct (JitterBackoff_offset base cap raw attempt He Hfit) as [Hj Hoff].
  exists (raw mod Z.quot (ExponentialBackoff base cap attempt) 2).
  eexists. split; [exact Hj|]. split; [reflexivity|].
  split; [reflexivity|]. split; [exact Hoff|].
  assert (2 * Z.quot (ExponentialBackoff base cap attempt) 2
          <= ExponentialBackoff base cap attempt) as Hq2.
  { rewrite Z.quot_div_nonneg by lia. apply Z.mul_div_le; lia. }
  split; [lia|]. split; [lia|].
  intros o raw' Ho Hraw'.
  destruct (JitterBackoff_offset base cap raw' attempt He Hfit) as [Hj' _].
  rewrite Hj'.
  assert (0 < Z.quot (ExponentialBackoff base cap attempt) 2) as Hn by lia.
  rewrite <- (Int63n_residues _ o raw' Hn Ho Hraw').
  split; [intros [= H]; lia | intros ->; reflexivity].
Qed.

Lemma JitterBackoff_range_witness :
  JitterBackoff 100 1000 77 1 = Some 277
  /\ (JitterBackoff 100 1000 (77 + 100 * 5) 1 = Some (200 + 77)).
Proof.
  destruct (JitterBackoff_range 100 1000 77 1)
    as (offset & d & Hd & Hoff & Hsum & _ & _ & _ & Huni);
    [vm_compute; discriminate | vm_compute; discriminate |].
  split.
  - rewrite Hd, Hsum, Hoff. reflexivity.
  - apply (Huni 77 (77 + 100 * 5)).
    + vm_compute. split; [discriminate | reflexivity].
    + vm_compute. split; [discriminate | reflexivity].
    + exists 5. split; [|reflexivity].
      vm_compute. split; [discriminate | reflexivity].
Defined.

(** C6 as stated fails at the two ends of the range of durations: with
    an exponential delay of [2^63 - 1] the sum wraps below the delay, and
    with an exponential delay of 1 the offset range is empty and the
    random source panics. *)
Lemma JitterBackoff_range_fails :
  (exists d,
      JitterBackoff Int64.max_int Int64.max_int 1 0 = Some d
      /\ d < ExponentialBackoff Int64.max_int Int64.max_int 0)
  /\ JitterBackoff 1 1 0 0 = None.
Proof.
  split; [|reflexivity].
  exists Int64.min_int. split; vm_compute; reflexivity.
Qed.

(** C7 (as the code has it).  [FixedDelay d] is non-negative when [d] is;
    [ExponentialBackoff base cap] is non-negative at every attempt when
    [cap >= 0]; [JitterBackoff base cap] returns a non-negative duration
    at every attempt whose exponential delay [e] has [2 <= e] and
    [e + e / 2 <= 2^63]. *)
Theorem strategies_nonnegative :
  (forall d attempt, 0 <= d -> 0 <= FixedDelay d attempt)
  /\ (forall base cap attempt,
         0 <= cap -> 0 <= ExponentialBackoff base cap attempt)
  /\ (forall base cap raw attempt,
         2 <= ExponentialBackoff base cap attempt ->
         ExponentialBackoff base cap attempt
         + Z.quot (ExponentialBackoff base cap attempt) 2
         <= Int64.max_int + 1 ->
         exists d, JitterBackoff base cap raw attempt = Some d /\ 0 <= d).
Proof.
  split; [|split].
  - intros d attempt Hd. exact Hd.
  - intros base cap attempt. apply ExponentialBackoff_nonneg.
  - intros base cap raw attempt He Hfit.
    destruct (JitterBackoff_offset base cap raw attempt He Hfit) as [Hj Hoff].
    eexists. split; [exact Hj|]. lia.
Qed.

Lemma strategies_nonnegative_witness :
  0 <= FixedDelay 7 3
  /\ 0 <= ExponentialBackoff 100 1000 5
  /\ exists d, JitterBackoff 100 1000 77 1 = Some d /\ 0 <= d.
Proof.
  destruct strategies_nonnegative as (Hf & He & Hj).
  split; [|split].
  - apply (Hf 7 3). lia.
  - apply (He 100 1000 5). lia.
  - apply (Hj 100 1000 77 1); vm_compute; discriminate.
Defined.

(** C7 as stated fails: nothing constrains the constructor arguments. *)
Lemma strategies_negative :
  FixedDelay (-1) 0 < 0
  /\ ExponentialBackoff 1 (-1) 1 < 0
  /\ ExponentialBackoff (-1) (-2) 0 < 0
  /\ JitterBackoff Int64.max_int Int64.max_int 1 0 = Some Int64.min_int.
Proof. vm_compute. repeat split. Qed.

(** ** One pass through the loop body *)

Section Iteration.

Variable transport : RoundTripper.
Variable retryStrategy : RetryStrategy.
Variable MaxRetries : Z.

Lemma iteration_viewP (attempt : Z) (req : Request) :
  iteration_view transport retryStrategy MaxRetries attempt req
    (iteration transport retryStrategy MaxRetries attempt req).
Proof.
  unfold iteration.
  destruct (rewind attempt req) as [[ev0 req1] [e|]] eqn:Hrw.
  - now apply view_rewind_failed.
  - pose proof (view_returned transport retryStrategy MaxRetries
                  attempt req ev0 req1) as Vret.
    pose proof (view_discard_failed transport retryStrategy MaxRetries
                  attempt req ev0 req1) as Vdis.
    pose proof (view_continue transport retryStrategy MaxRetries
                  attempt req ev0 req1) as Vcon.
    pose proof (view_exhausted transport retryStrategy MaxRetries
                  attempt req ev0 req1) as Vexh.
    destruct (transport attempt) as [resp err].
    cbn [fst snd] in Vret, Vdis, Vcon, Vexh.
    destruct (succeeded resp err) as [r|] eqn:Hs; [now apply Vret|].
    destruct (discard attempt resp) as [ev2 [e|]] eqn:Hd;
      [now apply Vdis|].
    destruct (attempt <? MaxRetries) eqn:Hlt.
    + apply Z.ltb_lt in Hlt. now apply Vcon.
    + apply Z.ltb_ge in Hlt. now apply Vexh.
Qed.

(** The rewind step calls [GetBody] at most once and leaves the
    capability in place. *)
Lemma rewind_events (attempt : Z) (req : Request) ev0 req1 e :
  rewind attempt req = (ev0, req1, e) ->
  (ev0 = [] \/ ev0 = [EvGetBody attempt]) /\ GetBody req1 = GetBody req.
Proof.
  unfold rewind. intros H.
  destruct (Body req) as [b|]; [|inversion H; subst; auto].
  destruct (GetBody req) as [g|] eqn:Hg;
    [|inversion H; subst; rewrite Hg; auto].
  destruct (g attempt) as [clone [err|]];
    inversion H; subst; cbn; rewrite ?Hg; auto.
Qed.

Lemma rewind_ok (attempt : Z) (req : Request) :
  rewinds_ok req attempt attempt ->
  exists ev0 req1, rewind attempt req = (ev0, req1, None).
Proof.
  unfold rewinds_ok, rewind. intros H.
  destruct (Body req) as [b|]; [|eauto].
  destruct (GetBody req) as [g|]; [|eauto].
  specialize (H attempt ltac:(lia)).
  destruct (g attempt) as [clone err]. cbn in H. subst err. eauto.
Qed.

Lemma succeeded_None (o : option Response * option error) :
  succeeded (fst o) (snd o) = None <-> retryable o.
Proof.
  destruct o as [[r|] [e|]]; cbn; try tauto.
  - unfold StatusInternalServerError.
    destruct (StatusCode r <? 500) eqn:H;
      [apply Z.ltb_lt in H | apply Z.ltb_ge in H];
      split; intros; try discriminate; try lia; reflexivity.
  - split; [discriminate | tauto].
Qed.

Lemma succeeded_Some (o : option Response * option error) (r : result) :
  succeeded (fst o) (snd o) = Some r ->
  snd o = None
  /\ match fst o with
     | Some resp => r = Ok resp /\ StatusCode resp < 500
     | None => r = Panic
     end.
Proof.
  destruct o as [[resp|] [e|]]; cbn; try discriminate.
  - unfold StatusInternalServerError.
    destruct (StatusCode resp <? 500) eqn:H; [|discriminate].
    apply Z.ltb_lt in H. intros [= <-]. auto.
  - intros [= <-]. auto.
Qed.

Lemma discard_None (attempt : Z) (o : option Response * option error) ev2 :
  discard attempt (fst o) = (ev2, None) <->
  released o
  /\ ev2 = match fst o with
           | Some _ => [EvCopy attempt; EvClose attempt]
           | None => []
           end.
Proof.
  unfold released, discard. destruct (fst o) as [r|].
  - destruct (copyErr r), (closeErr r); split;
      try (intros [= <-]); try (intros [[? ?] ->]);
      try discriminate; auto.
  - split; [intros [= <-]; auto | intros [_ ->]; reflexivity].
Qed.

Lemma discard_Some (attempt : Z) (resp : option Response) ev2 e :
  discard attempt resp = (ev2, Some e) ->
  exists r, resp = Some r
    /\ ev2 = [EvCopy attempt; EvClose attempt]
    /\ (forall c, copyErr r = Some c ->
          e = Errorf "failed to discard response body: %w" c [])
    /\ (forall c, copyErr r = None -> closeErr r = Some c ->
          e = Errorf "failed to close response body: %w" c []).
Proof.
  unfold discard. destruct resp as [r|]; [|discriminate].
  intros H. exists r. split; [reflexivity|].
  destruct (copyErr r) as [c|]; [|destruct (closeErr r) as [c|]];
    inversion H; subst; repeat split; intros; congruence.
Qed.

End Iteration.

(** ** The loop *)

Section Loop.

Variable transport : RoundTripper.
Variable retryStrategy : RetryStrategy.
Variable MaxRetries : Z.

Local Abbreviation pass := (iteration transport retryStrategy MaxRetries).
Local Abbreviation run := (loop transport retryStrategy MaxRetries).

(** How a run of the loop from [attempt] decomposes. *)
Lemma loop_inv (fuel : nat) (attempt : Z) (req : Request) tr res :
  run fuel attempt req = Some (tr, res) ->
  (MaxRetries < attempt /\ tr = [] /\ res = Err ErrAllRetriesFailed)
  \/ (attempt <= MaxRetries
      /\ exists fuel' ev req',
          fuel = S fuel'
          /\ ((pass attempt req = (ev, req', Return res) /\ tr = ev)
              \/ (pass attempt req = (ev, req', Continue)
                  /\ exists tr',
                      run fuel' (attempt + 1) req' = Some (tr', res)
                      /\ tr = ev ++ tr'))).
Proof.
  destruct fuel as [|fuel']; cbn [loop];
    destruct (attempt <=? MaxRetries) eqn:Hle;
    try (apply Z.leb_gt in Hle); try (apply Z.leb_le in Hle);
    intros H; try discriminate;
    try (inversion H; subst; left; auto; fail).
  right. split; [exact Hle|]. exists fuel'.
  destruct (pass attempt req) as [[ev req'] [r|]] eqn:Hit.
  - inversion H; subst. exists tr, req'. auto.
  - destruct (run fuel' (attempt + 1) req')
      as [[tr' r]|] eqn:Hl; [|discriminate].
    inversion H; subst. exists ev, req'. split; [reflexivity|].
    right. split; [reflexivity|]. exists tr'. auto.
Qed.

(** The loop returns: [MaxRetries + 1 - attempt] passes are enough. *)
Lemma loop_total (fuel : nat) :
  forall attempt req,
    (Z.to_nat (MaxRetries + 1 - attempt) <= fuel)%nat ->
    exists tr res, run fuel attempt req = Some (tr, res).
Proof.
  induction fuel as [|fuel IH]; intros attempt req Hfuel;
    cbn [loop];
    destruct (attempt <=? MaxRetries) eqn:Hle;
    try (apply Z.leb_le in Hle); eauto; [lia|].
  destruct (pass attempt req) as [[ev req'] [r|]]; [eauto|].
  destruct (IH (attempt + 1) req' ltac:(lia)) as (tr & res & Hl).
  rewrite Hl. eauto.
Qed.

(** Every event of a pass that names an attempt names the current
    one. *)
Lemma iteration_attempt_of (attempt : Z) (req : Request) ev req' c :
  pass attempt req = (ev, req', c) ->
  forall e k, In e ev -> attempt_of e = Some k -> k = attempt.
Proof.
  intros Hit e k Hin Hk.
  pose proof (iteration_viewP transport retryStrategy MaxRetries
                attempt req) as V.
  rewrite Hit in V.
  assert (forall ev0 req1 o, rewind attempt req = (ev0, req1, o) ->
            In e ev0 -> k = attempt) as Hrw.
  { intros ev0 req1 o Hr Hi.
    destruct (rewind_events attempt req ev0 req1 o Hr) as [[-> | ->] _];
      cbn in Hi; [tauto|].
    destruct Hi as [<- | []]. cbn in Hk. congruence. }
  assert (forall resp ev2 o, discard attempt resp = (ev2, o) ->
            In e ev2 -> k = attempt) as Hdc.
  { intros resp ev2 o Hd Hi. unfold discard in Hd.
    destruct resp; inversion Hd; subst; cbn in Hi;
      intuition (subst; cbn in Hk; congruence). }
  inversion V; subst; clear V;
    repeat (apply in_app_or in Hin; destruct Hin as [Hin | Hin]);
    eauto;
    cbn in Hin; intuition (subst; cbn in Hk; congruence).
Qed.

(** The attempts named in a run from [attempt] are not below it. *)
Lemma loop_attempts_ge (fuel : nat) :
  forall attempt req tr res,
    run fuel attempt req = Some (tr, res) ->
    forall e k, In e tr -> attempt_of e = Some k -> attempt <= k.
Proof.
  induction fuel as [|fuel IH]; intros attempt req tr res Hl e k Hin Hk;
    apply loop_inv in Hl;
    destruct Hl as [(_ & -> & _) | (Hle & fuel' & ev & req' & Hf & Hl)];
    try (cbn in Hin; tauto); try discriminate.
  injection Hf as <-.
  destruct Hl as [[Hit ->] | [Hit (tr' & Hl & ->)]].
  - rewrite (iteration_attempt_of _ _ _ _ _ Hit e k Hin Hk). lia.
  - apply in_app_or in Hin as [Hin | Hin].
    + rewrite (iteration_attempt_of _ _ _ _ _ Hit e k Hin Hk). lia.
    + specialize (IH _ _ _ _ Hl e k Hin Hk). lia.
Qed.

(** A returned response has a status below 500. *)
Lemma loop_Ok_status (fuel : nat) :
  forall attempt req tr resp,
    run fuel attempt req = Some (tr, Ok resp) -> StatusCode resp < 500.
Proof.
  induction fuel as [|fuel IH]; intros attempt req tr resp Hl;
    apply loop_inv in Hl;
    destruct Hl as [(_ & _ & ?) | (Hle & fuel' & ev & req' & Hf & Hl)];
    try discriminate.
  injection Hf as <-.
  destruct Hl as [[Hit ->] | [Hit (tr' & Hl & ->)]]; [|eauto].
  pose proof (iteration_viewP transport retryStrategy MaxRetries
                attempt req) as V.
  rewrite Hit in V. inversion V; subst.
  match goal with
  | H : succeeded _ _ = Some _ |- _ =>
      apply (succeeded_Some (transport attempt)) in H;
      destruct H as [_ H]; destruct (fst (transport attempt));
      [destruct H as [[= <-] ?]; assumption | discriminate]
  end.
Qed.

End Loop.

(** ** Counting in traces *)

Section Traces.

Lemma sends_app (xs ys : list event) :
  sends (xs ++ ys) = (sends xs + sends ys)%nat.
Proof. unfold sends. now rewrite filter_app, length_app. Qed.

Lemma sleeps_app (xs ys : list event) :
  sleeps (xs ++ ys) = sleeps xs ++ sleeps ys.
Proof.
  induction xs as [|x xs IH]; [reflexivity|].
  destruct x; cbn; rewrite ?IH; reflexivity.
Qed.

Lemma copies_of_app (k : Z) (xs ys : list event) :
  copies_of k (xs ++ ys) = (copies_of k xs + copies_of k ys)%nat.
Proof. unfold copies_of. now rewrite filter_app, length_app. Qed.

Lemma closes_of_app (k : Z) (xs ys : list event) :
  closes_of k (xs ++ ys) = (closes_of k xs + closes_of k ys)%nat.
Proof. unfold closes_of. now rewrite filter_app, length_app. Qed.

(** A trace that never names attempt [k] holds no drain and no close of
    its response. *)
Lemma untouched (k : Z) (tr : list event) :
  (forall e j, In e tr -> attempt_of e = Some j -> j <> k) ->
  copies_of k tr = 0%nat /\ closes_of k tr = 0%nat.
Proof.
  unfold copies_of, closes_of.
  induction tr as [|x tr IH]; intros H; [auto|].
  destruct IH as [IHc IHl]; [intros e j Hin; apply H; now right|].
  assert (forall j, attempt_of x = Some j -> j <> k) as Hx
      by (intros j; apply H; now left).
  destruct x; cbn; auto;
    specialize (Hx attempt eq_refl); apply Z.eqb_neq in Hx;
    rewrite Hx; auto.
Qed.

Lemma rewind_untouched (attempt k : Z) (req : Request) ev0 req1 o b :
  rewind attempt req = (ev0, req1, o) ->
  copies_of k ev0 = 0%nat /\ closes_of k ev0 = 0%nat
  /\ sends ev0 = 0%nat /\ sleeps ev0 = [] /\ ~ In (EvSend k b) ev0.
Proof.
  intros H. destruct (rewind_events attempt req ev0 req1 o H) as [[-> | ->] _];
    cbn; repeat split; auto; intros [? | []]; discriminate.
Qed.

End Traces.

(** ** What a run does with each send *)

Section Anatomy.

Variable transport : RoundTripper.
Variable retryStrategy : RetryStrategy.
Variable MaxRetries : Z.

Local Abbreviation pass := (iteration transport retryStrategy MaxRetries).
Local Abbreviation run := (loop transport retryStrategy MaxRetries).

(** Around the send of attempt [k]: nothing touches its response before
    the send; either the run ends there with the early exit, or the
    drain and close follow at once, and then the run ends with their
    error, ends with the exhaustion error when [k] is the last attempt,
    or goes on without touching that response again. *)
Lemma loop_send_anatomy (fuel : nat) :
  forall attempt req tr res,
    run fuel attempt req = Some (tr, res) ->
    forall k b, In (EvSend k b) tr ->
    exists pre sent post,
      tr = pre ++ EvSend k sent :: post
      /\ copies_of k pre = 0%nat /\ closes_of k pre = 0%nat
      /\ ((succeeded (fst (transport k)) (snd (transport k)) = Some res
           /\ post = [])
          \/ (succeeded (fst (transport k)) (snd (transport k)) = None
              /\ exists post',
                  post = fst (discard k (fst (transport k))) ++ post'
                  /\ copies_of k post' = 0%nat /\ closes_of k post' = 0%nat
                  /\ (forall e,
                         snd (discard k (fst (transport k))) = Some e ->
                         res = Err e /\ post' = [])
                  /\ (snd (discard k (fst (transport k))) = None ->
                      MaxRetries <= k ->
                      res = Err (exhausted (fst (transport k))
                                           (snd (transport k)))
                      /\ post' = []))).
Proof.
  induction fuel as [|fuel IH]; intros attempt req tr res Hl k b Hin;
    apply loop_inv in Hl;
    destruct Hl as [(_ & -> & _) | (Hle & fuel' & ev & req' & Hf & Hl)];
    try (cbn in Hin; tauto); try discriminate.
  injection Hf as <-.
  pose proof (iteration_viewP transport retryStrategy MaxRetries
                attempt req) as V.
  destruct Hl as [[Hit ->] | [Hit (tr' & Hl & ->)]]; rewrite Hit in V.
  - (* the pass returns *)
    assert (k = attempt) as ->
        by exact (iteration_attempt_of _ _ _ _ _ _ _ _ Hit _ _ Hin eq_refl).
    inversion V; subst; clear V;
      match goal with
      | H : rewind _ _ = _ |- _ =>
          destruct (rewind_untouched _ attempt _ _ _ _ b H)
            as (Hc0 & Hl0 & _ & _ & Hn0)
      end.
    + tauto.
    + exists ev0, (Body req'), []. repeat split; auto.
    + exists ev0, (Body req'), ev2.
      split; [now rewrite <- app_assoc|]. repeat split; auto.
      right. split; [assumption|]. exists [].
      match goal with H : discard _ _ = _ |- _ => rewrite H end. cbn.
      rewrite app_nil_r. repeat split; auto; try discriminate.
      congruence.
    + exists ev0, (Body req'), ev2.
      split; [now rewrite <- app_assoc|]. repeat split; auto.
      right. split; [assumption|]. exists [].
      match goal with H : discard _ _ = _ |- _ => rewrite H end. cbn.
      rewrite app_nil_r. repeat split; auto; discriminate.
  - (* the pass goes on to the next attempt *)
    inversion V; subst; clear V.
    match goal with
    | H : rewind _ _ = _ |- _ =>
        destruct (rewind_untouched _ attempt _ _ _ _ b H)
          as (Hc0 & Hl0 & _ & _ & Hn0)
    end.
    assert (forall e j, In e tr' -> attempt_of e = Some j -> attempt + 1 <= j)
      as Hge by (intros e j; eapply loop_attempts_ge; eassumption).
    apply in_app_or in Hin as [Hin | Hin].
    + assert (k = attempt) as ->
          by exact (iteration_attempt_of _ _ _ _ _ _ _ _ Hit _ _ Hin eq_refl).
      destruct (untouched attempt tr') as [Hct Hlt].
      { intros e j He Hj. specialize (Hge e j He Hj). lia. }
      exists ev0, (Body req'),
        (ev2 ++ [EvPrintf (attempt + 1) (retryStrategy attempt);
                 EvSleep (retryStrategy attempt)] ++ tr').
      split; [rewrite <- !app_assoc; reflexivity|]. repeat split; auto.
      right. split; [assumption|].
      exists ([EvPrintf (attempt + 1) (retryStrategy attempt);
               EvSleep (retryStrategy attempt)] ++ tr').
      match goal with H : discard _ _ = _ |- _ => rewrite H end. cbn.
      repeat split; auto; try discriminate; intros; lia.
    + assert (attempt + 1 <= k) as Hk by exact (Hge _ _ Hin eq_refl).
      destruct (IH _ _ _ _ Hl k b Hin)
        as (pre & sent & post & -> & Hcp & Hlp & Hrest).
      set (evs := (ev0 ++ [EvSend attempt (Body req')]) ++ ev2
                  ++ [EvPrintf (attempt + 1) (retryStrategy attempt);
                      EvSleep (retryStrategy attempt)]) in *.
      destruct (untouched k evs) as [Hce Hle'].
      { intros e j He Hj.
        rewrite (iteration_attempt_of _ _ _ _ _ _ _ _ Hit _ _ He Hj). lia. }
      exists (evs ++ pre), sent, post.
      split; [now rewrite <- app_assoc|].
      rewrite copies_of_app, closes_of_app, Hce, Hle', Hcp, Hlp.
      repeat split; auto.
Qed.

End Anatomy.

(** ** Runs in which every send fails *)

Section Exhaustion.

Variable transport : RoundTripper.
Variable retryStrategy : RetryStrategy.
Variable MaxRetries : Z.

Local Abbreviation pass := (iteration transport retryStrategy MaxRetries).
Local Abbreviation run := (loop transport retryStrategy MaxRetries).

(** A pass whose rewind works always reaches the send. *)
Lemma iteration_sends (attempt : Z) (req : Request) ev0 req1 :
  rewind attempt req = (ev0, req1, None) ->
  exists rest c,
    pass attempt req = (ev0 ++ EvSend attempt (Body req1) :: rest, req1, c).
Proof.
  intros Hrw. unfold iteration. rewrite Hrw.
  destruct (transport attempt) as [resp err].
  destruct (succeeded resp err) as [r|].
  { exists [], (Return r). reflexivity. }
  destruct (discard attempt resp) as [ev2 [e|]].
  { exists ev2, (Return (Err e)). now rewrite <- app_assoc. }
  destruct (attempt <? MaxRetries); eexists _, _;
    rewrite <- app_assoc; reflexivity.
Qed.

(** A pass whose rewind works, whose send is retryable and whose
    response is released without error. *)
Lemma iteration_retry (attempt : Z) (req : Request) ev0 req1 :
  rewind attempt req = (ev0, req1, None) ->
  retryable (transport attempt) ->
  released (transport attempt) ->
  let ev2 := match fst (transport attempt) with
             | Some _ => [EvCopy attempt; EvClose attempt]
             | None => []
             end in
  pass attempt req =
    if attempt <? MaxRetries then
      ((ev0 ++ [EvSend attempt (Body req1)]) ++ ev2
       ++ [EvPrintf (attempt + 1) (retryStrategy attempt);
           EvSleep (retryStrategy attempt)], req1, Continue)
    else
      ((ev0 ++ [EvSend attempt (Body req1)]) ++ ev2, req1,
       Return (Err (exhausted (fst (transport attempt))
                              (snd (transport attempt))))).
Proof.
  intros Hrw Hret Hrel ev2.
  pose proof (proj2 (succeeded_None (transport attempt)) Hret) as Hs.
  pose proof (proj2 (discard_None attempt (transport attempt) ev2)
                (conj Hrel eq_refl)) as Hd.
  unfold iteration. rewrite Hrw.
  destruct (transport attempt) as [resp err]. cbn [fst snd] in *.
  rewrite Hs, Hd. reflexivity.
Qed.

Lemma rewinds_ok_here (req : Request) (from to : Z) :
  from <= to -> rewinds_ok req from to -> rewinds_ok req from from.
Proof.
  unfold rewinds_ok. destruct (GetBody req); [|auto].
  intros Hle H k Hk. apply H. lia.
Qed.

Lemma rewinds_ok_next (req req1 : Request) (from to : Z) :
  GetBody req1 = GetBody req ->
  rewinds_ok req from to -> rewinds_ok req1 (from + 1) to.
Proof.
  unfold rewinds_ok. intros ->. destruct (GetBody req); [|auto].
  intros H k Hk. apply H. lia.
Qed.

(** From [attempt] on, [MaxRetries + 1 - attempt] sends, one wait after
    each but the last, and the exhaustion error of the last send. *)
Lemma loop_exhausts (fuel : nat) :
  forall attempt req,
    attempt <= MaxRetries ->
    (Z.to_nat (MaxRetries + 1 - attempt) <= fuel)%nat ->
    rewinds_ok req attempt MaxRetries ->
    (forall k, attempt <= k <= MaxRetries ->
               retryable (transport k) /\ released (transport k)) ->
    exists tr,
      run fuel attempt req
      = Some (tr, Err (exhausted (fst (transport MaxRetries))
                                 (snd (transport MaxRetries))))
      /\ sends tr = Z.to_nat (MaxRetries + 1 - attempt)
      /\ sleeps tr
         = map retryStrategy (attempts attempt
                                (Z.to_nat (MaxRetries - attempt))).
Proof.
  induction fuel as [|fuel IH]; intros attempt req Hle Hfuel Hrw Hall;
    [lia|].
  destruct (rewind_ok attempt req (rewinds_ok_here _ _ _ Hle Hrw))
    as (ev0 & req1 & Hr).
  destruct (Hall attempt ltac:(lia)) as [Hret Hrel].
  pose proof (iteration_retry attempt req ev0 req1 Hr Hret Hrel) as Hit.
  destruct (rewind_untouched attempt attempt req ev0 req1 None None Hr)
    as (_ & _ & Hs0 & Hz0 & _).
  destruct (rewind_events attempt req ev0 req1 None Hr) as [_ Hgb].
  cbn [loop]. apply Z.leb_le in Hle as Hleb. rewrite Hleb.
  cbv zeta in Hit. rewrite Hit. clear Hit.
  assert (forall ev2,
             ev2 = match fst (transport attempt) with
                   | Some _ => [EvCopy attempt; EvClose attempt]
                   | None => []
                   end -> sends ev2 = 0%nat /\ sleeps ev2 = []) as Hev2
      by (intros ev2 ->; destruct (fst (transport attempt)); auto).
  destruct (Hev2 _ eq_refl) as [Hs2 Hz2].
  destruct (attempt <? MaxRetries) eqn:Hlt.
  - apply Z.ltb_lt in Hlt.
    destruct (IH (attempt + 1) req1 ltac:(lia) ltac:(lia)
                (rewinds_ok_next req req1 attempt MaxRetries Hgb Hrw))
      as (tr & Hrun & Hsends & Hsleeps).
    { intros k Hk. apply Hall. lia. }
    rewrite Hrun. eexists. split; [reflexivity|].
    rewrite !sends_app, !sleeps_app, Hs0, Hz0, Hs2, Hz2, Hsends, Hsleeps.
    replace (Z.to_nat (MaxRetries - attempt))
      with (S (Z.to_nat (MaxRetries - (attempt + 1)))) by lia.
    cbn. split; [lia | reflexivity].
  - apply Z.ltb_ge in Hlt. assert (attempt = MaxRetries) as -> by lia.
    eexists. split; [reflexivity|].
    rewrite !sends_app, !sleeps_app, Hs0, Hz0, Hs2, Hz2.
    replace (MaxRetries + 1 - MaxRetries) with 1 by lia.
    replace (MaxRetries - MaxRetries) with 0 by lia.
    split; reflexivity.
Qed.

(** A run whose rewind works reaches the send of its first pass. *)
Lemma loop_reaches_send (fuel : nat) (attempt : Z) (req : Request) ev0 req1 :
  attempt <= MaxRetries ->
  (Z.to_nat (MaxRetries + 1 - attempt) <= fuel)%nat ->
  rewind attempt req = (ev0, req1, None) ->
  exists tr res,
    run fuel attempt req
    = Some (ev0 ++ EvSend attempt (Body req1) :: tr, res).
Proof.
  intros Hle Hfuel Hr.
  destruct fuel as [|fuel]; [lia|].
  destruct (iteration_sends attempt req ev0 req1 Hr) as (rest & c & Hit).
  cbn [loop]. apply Z.leb_le in Hle as Hleb. rewrite Hleb, Hit.
  destruct c as [r|]; [eauto|].
  destruct (loop_total transport retryStrategy MaxRetries fuel
              (attempt + 1) req1 ltac:(lia)) as (tr' & res & Hl).
  rewrite Hl. exists (rest ++ tr'), res.
  now rewrite <- app_assoc.
Qed.

End Exhaustion.

(** ** Properties of [RoundTrip] *)

(** [RoundTrip] always hands back a result: the loop never runs short of
    passes. *)
Lemma RoundTrip_total (D : RoundTripper) (r : retryTransport.t)
  (req : Request) :
  exists tr res, RoundTrip D r req = Some (tr, res).
Proof.
  unfold RoundTrip. apply loop_total.
  rewrite Z.sub_0_r. apply Nat.le_refl.
Qed.

(** C1 (as the code has it).  For every [MaxRetries = N >= 0] and every
    request whose rewinds succeed, if every physical send is retryable
    and every drain and close succeeds, [RoundTrip] performs exactly
    [N + 1] physical sends and exactly [N] waits, of [strategy 0], ...,
    [strategy (N - 1)] in this order, and returns an exhaustion error:
    the one that carries the last status code when the last send yielded
    a response and no transport error, and the wrapped transport error of
    the last send otherwise. *)
Theorem RoundTrip_exhausts (D : RoundTripper) (r : retryTransport.t)
  (req : Request) :
  0 <= retryTransport.MaxRetries r ->
  rewinds_ok req 0 (retryTransport.MaxRetries r) ->
  (forall k, 0 <= k <= retryTransport.MaxRetries r ->
             retryable (transportOf D r k) /\ released (transportOf D r k)) ->
  exists tr e,
    RoundTrip D r req = Some (tr, Err e)
    /\ sends tr = Z.to_nat (retryTransport.MaxRetries r + 1)
    /\ sleeps tr
       = map (strategyOf r)
             (attempts 0 (Z.to_nat (retryTransport.MaxRetries r)))
    /\ (forall resp,
           transportOf D r (retryTransport.MaxRetries r) = (Some resp, None) ->
           carries_status e (StatusCode resp))
    /\ (forall resp err,
           transportOf D r (retryTransport.MaxRetries r) = (resp, Some err) ->
           e = Errorf "all retries failed; last error: %w" err []).
Proof.
  intros HN Hrw Hall. unfold RoundTrip.
  assert (Z.to_nat (retryTransport.MaxRetries r + 1 - 0)
          <= Z.to_nat (retryTransport.MaxRetries r + 1))%nat as Hfuel
      by (rewrite Z.sub_0_r; apply Nat.le_refl).
  destruct (loop_exhausts (transportOf D r) (strategyOf r)
              (retryTransport.MaxRetries r)
              (Z.to_nat (retryTransport.MaxRetries r + 1)) 0 req HN
              Hfuel Hrw Hall)
    as (tr & Hrun & Hsends & Hsleeps).
  exists tr. eexists. split; [exact Hrun|].
  rewrite Z.sub_0_r in Hsends, Hsleeps.
  split; [exact Hsends|]. split; [exact Hsleeps|].
  split; intros; match goal with H : transportOf _ _ _ = _ |- _ =>
                                   rewrite H end; reflexivity.
Qed.

Lemma RoundTrip_exhausts_witness :
  exists tr e,
    RoundTrip Sample.refused
      (Sample.retrier (Sample.always (Sample.plain 500)) 3)
      Sample.replayable = Some (tr, Err e)
    /\ sends tr = 4%nat
    /\ sleeps tr = [7; 7; 7]
    /\ carries_status e 500.
Proof.
  destruct (RoundTrip_exhausts Sample.refused
              (Sample.retrier (Sample.always (Sample.plain 500)) 3)
              Sample.replayable)
    as (tr & e & Hrun & Hsends & Hsleeps & Hstatus & _).
  - cbn. lia.
  - cbn. intros k _. reflexivity.
  - intros k _. cbn. unfold StatusInternalServerError. split; [lia | auto].
  - exists tr, e. split; [exact Hrun|]. split; [exact Hsends|].
    split; [exact Hsleeps|]. apply (Hstatus (Sample.plain 500)). reflexivity.
Defined.

(** C1 as stated fails.  When the last send ends with a transport error
    no status code was observed and the terminal error carries none; and
    a request whose rewind fails stops the run before the budget is
    used. *)
Lemma RoundTrip_exhausts_without_status :
  (forall k, retryable (Sample.refused k) /\ released (Sample.refused k))
  /\ RoundTrip Sample.refused (Sample.retrier Sample.refused 0) Sample.noBody
     = Some ([EvSend 0 None],
             Err (Errorf "all retries failed; last error: %w" (External 1) []))
  /\ (forall code,
         ~ carries_status
             (Errorf "all retries failed; last error: %w" (External 1) [])
             code)
  /\ (exists tr e,
         RoundTrip Sample.refused
           (Sample.retrier (Sample.always (Sample.plain 500)) 1) Sample.stale
         = Some (tr, Err e)
         /\ sends tr = 1%nat
         /\ e = Errorf "failed to get request body for retry: %w"
                       (External 9) []).
Proof.
  split; [intros k; cbn; auto|]. split; [reflexivity|].
  split; [intros code; unfold carries_status; discriminate|].
  eexists _, _. split; [vm_compute; reflexivity|]. split; reflexivity.
Qed.

(** C10.  With a negative [MaxRetries] the loop body never runs:
    [RoundTrip] sends nothing, waits for nothing and returns
    [ErrAllRetriesFailed] itself. *)
Theorem RoundTrip_negative_budget (D : RoundTripper) (r : retryTransport.t)
  (req : Request) :
  retryTransport.MaxRetries r < 0 ->
  exists tr,
    RoundTrip D r req = Some (tr, Err ErrAllRetriesFailed)
    /\ tr = [] /\ sends tr = 0%nat /\ sleeps tr = [].
Proof.
  intros Hneg. exists []. split; [|repeat split].
  unfold RoundTrip.
  assert ((0 <=? retryTransport.MaxRetries r) = false) as Hgt
      by (apply Z.leb_gt; exact Hneg).
  destruct (Z.to_nat (retryTransport.MaxRetries r + 1));
    cbn [loop]; rewrite Hgt; reflexivity.
Qed.

Lemma RoundTrip_negative_budget_witness :
  exists tr,
    RoundTrip Sample.refused
      (Sample.retrier (Sample.always (Sample.plain 200)) (-1))
      Sample.replayable
    = Some (tr, Err ErrAllRetriesFailed)
    /\ tr = [] /\ sends tr = 0%nat /\ sleeps tr = [].
Proof.
  apply (RoundTrip_negative_budget Sample.refused
           (Sample.retrier (Sample.always (Sample.plain 200)) (-1))
           Sample.replayable).
  cbn. lia.
Defined.

(** C2 (as the code has it).  When the send of attempt [MaxRetries] took
    place, was retryable, and its response, if any, was drained and
    closed without error, [RoundTrip] returns the terminal error of the
    exhausted budget: (i) the transport error of that send, wrapped, if
    there was one; (ii) otherwise an error that wraps
    [ErrAllRetriesFailed] and carries the status code of the response,
    which is 500 or above; (iii) the bare [ErrAllRetriesFailed] is what
    remains when there is neither. *)
Theorem RoundTrip_budget_exhausted (D : RoundTripper)
  (r : retryTransport.t) (req : Request) :
  exists tr res,
    RoundTrip D r req = Some (tr, res)
    /\ forall b,
        In (EvSend (retryTransport.MaxRetries r) b) tr ->
        retryable (transportOf D r (retryTransport.MaxRetries r)) ->
        released (transportOf D r (retryTransport.MaxRetries r)) ->
        res = Err (exhausted
                     (fst (transportOf D r (retryTransport.MaxRetries r)))
                     (snd (transportOf D r (retryTransport.MaxRetries r))))
        /\ (forall err,
               snd (transportOf D r (retryTransport.MaxRetries r)) = Some err ->
               res = Err (Errorf "all retries failed; last error: %w" err []))
        /\ (forall resp,
               transportOf D r (retryTransport.MaxRetries r)
               = (Some resp, None) ->
               res = Err (Errorf "%w: last attempt failed with status %d"
                                 ErrAllRetriesFailed [StatusCode resp])
               /\ 500 <= StatusCode resp
               /\ Is_ErrAllRetriesFailed
                    (Errorf "%w: last attempt failed with status %d"
                            ErrAllRetriesFailed [StatusCode resp]) = true)
        /\ exhausted None None = ErrAllRetriesFailed.
Proof.
  destruct (RoundTrip_total D r req) as (tr & res & Hrun).
  exists tr, res. split; [exact Hrun|]. intros b Hin Hret Hrel.
  unfold RoundTrip in Hrun.
  destruct (loop_send_anatomy _ _ _ _ _ _ _ _ Hrun _ _ Hin)
    as (pre & sent & post & _ & _ & _ & Hcases).
  apply succeeded_None in Hret as Hs.
  destruct Hcases as [[Hs' _] | (_ & post' & _ & _ & _ & _ & Hnone)];
    [congruence|].
  pose proof (proj2 (discard_None (retryTransport.MaxRetries r) _ _)
                (conj Hrel eq_refl)) as Hd.
  rewrite Hd in Hnone. destruct (Hnone eq_refl (Z.le_refl _)) as [-> _].
  split; [reflexivity|].
  split; [intros err ->; reflexivity|].
  split; [|reflexivity].
  intros resp Ht. rewrite Ht in *. cbn in Hret |- *.
  unfold StatusInternalServerError in Hret. auto.
Qed.

Lemma RoundTrip_budget_exhausted_witness :
  exists tr res,
    RoundTrip Sample.refused
      (Sample.retrier (Sample.always (Sample.plain 503)) 2) Sample.noBody
    = Some (tr, res)
    /\ res = Err (Errorf "%w: last attempt failed with status %d"
                         ErrAllRetriesFailed [503]).
Proof.
  destruct (RoundTrip_budget_exhausted Sample.refused
              (Sample.retrier (Sample.always (Sample.plain 503)) 2)
              Sample.noBody) as (tr & res & Hrun & H).
  exists tr, res. split; [exact Hrun|].
  assert (In (EvSend 2 None) tr) as Hin.
  { vm_compute in Hrun. injection Hrun as <- _. cbn. tauto. }
  destruct (H None Hin) as (_ & _ & Hii & _).
  - cbn. unfold StatusInternalServerError. lia.
  - cbn. auto.
  - apply (Hii (Sample.plain 503)). reflexivity.
Defined.

(** C2 as stated fails: the last send is retryable, the budget is used
    up, and the error returned is that of the failed drain, none of the
    three. *)
Lemma RoundTrip_budget_exhausted_drain_fails :
  retryable (Sample.always Sample.unreadable 0)
  /\ RoundTrip Sample.refused
       (Sample.retrier (Sample.always Sample.unreadable) 0) Sample.noBody
     = Some ([EvSend 0 None; EvCopy 0; EvClose 0],
             Err (Errorf "failed to discard response body: %w"
                         (External 7) []))
  /\ Errorf "failed to discard response body: %w" (External 7) []
     <> exhausted (Some Sample.unreadable) None
  /\ Is_ErrAllRetriesFailed
       (Errorf "failed to discard response body: %w" (External 7) [])
     = false.
Proof.
  split; [cbn; unfold StatusInternalServerError; lia|].
  split; [reflexivity|]. split; [discriminate | reflexivity].
Qed.

(** C3.  For every attempt that was sent and whose send came back with a
    response and no error: if the status is below 500, [RoundTrip]
    returns that response, the send is the last thing the run did (no
    further send, no wait) and the body was neither drained nor closed;
    if the status is 500 or above the response is not returned but
    drained and closed at once.  No response with a status of 500 or
    above is ever returned. *)
Theorem RoundTrip_success_below_500 (D : RoundTripper)
  (r : retryTransport.t) (req : Request) :
  exists tr res,
    RoundTrip D r req = Some (tr, res)
    /\ (forall k b resp,
           In (EvSend k b) tr ->
           transportOf D r k = (Some resp, None) ->
           (StatusCode resp < 500 ->
              res = Ok resp
              /\ (exists pre sent, tr = pre ++ [EvSend k sent])
              /\ copies_of k tr = 0%nat /\ closes_of k tr = 0%nat)
           /\ (500 <= StatusCode resp ->
                 res <> Ok resp
                 /\ exists pre sent post,
                     tr = pre ++ EvSend k sent :: EvCopy k :: EvClose k
                              :: post))
    /\ (forall resp, res = Ok resp -> StatusCode resp < 500).
Proof.
  destruct (RoundTrip_total D r req) as (tr & res & Hrun).
  exists tr, res. split; [exact Hrun|]. unfold RoundTrip in Hrun.
  assert (forall resp, res = Ok resp -> StatusCode resp < 500) as Hok.
  { intros resp ->. exact (loop_Ok_status _ _ _ _ _ _ _ _ Hrun). }
  split; [|exact Hok].
  intros k b resp Hin Ht.
  destruct (loop_send_anatomy _ _ _ _ _ _ _ _ Hrun _ _ Hin)
    as (pre & sent & post & -> & Hcp & Hlp & Hcases).
  rewrite Ht in Hcases. cbn [fst snd succeeded discard] in Hcases.
  unfold StatusInternalServerError in Hcases.
  split; intros Hcode.
  - apply Z.ltb_lt in Hcode. rewrite Hcode in Hcases.
    destruct Hcases as [[[= <-] ->] | [? _]]; [|discriminate].
    split; [reflexivity|]. split; [eauto|].
    rewrite copies_of_app, closes_of_app, Hcp, Hlp. split; reflexivity.
  - split; [intros ->; specialize (Hok resp eq_refl); lia|].
    apply Z.ltb_ge in Hcode. rewrite Hcode in Hcases.
    destruct Hcases as [[? _] | (_ & post' & -> & _)]; [discriminate|].
    exists pre, sent, post'. reflexivity.
Qed.

Lemma RoundTrip_success_below_500_witness :
  exists tr res,
    RoundTrip Sample.refused (Sample.retrier Sample.flaky 5) Sample.noBody
    = Some (tr, res)
    /\ res = Ok (Sample.plain 200)
    /\ copies_of 3 tr = 0%nat
    /\ sends tr = 4%nat /\ sleeps tr = [7; 7; 7].
Proof.
  destruct (RoundTrip_success_below_500 Sample.refused
              (Sample.retrier Sample.flaky 5) Sample.noBody)
    as (tr & res & Hrun & H & _).
  exists tr, res. split; [exact Hrun|].
  assert (In (EvSend 3 None) tr /\ sends tr = 4%nat /\ sleeps tr = [7; 7; 7])
    as (Hin & Hsends & Hsleeps).
  { vm_compute in Hrun. injection Hrun as <- _. cbn. tauto. }
  destruct (H 3 None (Sample.plain 200) Hin eq_refl) as [Hlow _].
  destruct Hlow as (Hres & _ & Hcopies & _); [cbn; lia|].
  auto.
Defined.

(** C8.  Every response a send produced is either returned to the caller
    with its body untouched, the send being the last thing the run did,
    or drained and closed exactly once, right after its send; and when
    the drain or the close of such a response fails the run ends there
    with that failure, the drain error first. *)
Theorem RoundTrip_releases_responses (D : RoundTripper)
  (r : retryTransport.t) (req : Request) :
  exists tr res,
    RoundTrip D r req = Some (tr, res)
    /\ forall k b resp,
        In (EvSend k b) tr ->
        fst (transportOf D r k) = Some resp ->
        (res = Ok resp
         /\ (exists pre sent, tr = pre ++ [EvSend k sent])
         /\ copies_of k tr = 0%nat /\ closes_of k tr = 0%nat)
        \/ (copies_of k tr = 1%nat /\ closes_of k tr = 1%nat
            /\ exists pre sent post,
                tr = pre ++ EvSend k sent :: EvCopy k :: EvClose k :: post
                /\ (forall e,
                       copyErr resp = Some e ->
                       res = Err (Errorf "failed to discard response body: %w"
                                         e [])
                       /\ post = [])
                /\ (forall e,
                       copyErr resp = None -> closeErr resp = Some e ->
                       res = Err (Errorf "failed to close response body: %w"
                                         e [])
                       /\ post = [])).
Proof.
  destruct (RoundTrip_total D r req) as (tr & res & Hrun).
  exists tr, res. split; [exact Hrun|]. unfold RoundTrip in Hrun.
  intros k b resp Hin Hresp.
  destruct (loop_send_anatomy _ _ _ _ _ _ _ _ Hrun _ _ Hin)
    as (pre & sent & post & -> & Hcp & Hlp & Hcases).
  destruct Hcases as [[Hs ->] | (_ & post' & -> & Hc' & Hl' & Hsome & _)].
  - left. apply succeeded_Some in Hs as [_ Hs]. rewrite Hresp in Hs.
    destruct Hs as [-> _]. split; [reflexivity|]. split; [eauto|].
    rewrite copies_of_app, closes_of_app, Hcp, Hlp. split; reflexivity.
  - right. rewrite Hresp in *. cbn [discard fst snd] in *.
    assert (copies_of k [EvSend k sent; EvCopy k; EvClose k] = 1%nat
            /\ closes_of k [EvSend k sent; EvCopy k; EvClose k] = 1%nat)
      as [Hc1 Hl1]
        by (unfold copies_of, closes_of; cbn; rewrite Z.eqb_refl; auto).
    change (EvSend k sent :: [EvCopy k; EvClose k] ++ post')
      with ([EvSend k sent; EvCopy k; EvClose k] ++ post').
    rewrite !copies_of_app, !closes_of_app, Hcp, Hlp, Hc1, Hl1, Hc', Hl'.
    split; [reflexivity|]. split; [reflexivity|].
    exists pre, sent, post'. split; [reflexivity|].
    split; intros e He.
    + rewrite He in Hsome. exact (Hsome _ eq_refl).
    + intros Hcl. rewrite He, Hcl in Hsome. exact (Hsome _ eq_refl).
Qed.

Lemma RoundTrip_releases_responses_witness :
  exists tr res,
    RoundTrip Sample.refused
      (Sample.retrier (Sample.always Sample.unclosable) 4) Sample.oneShot
    = Some (tr, res)
    /\ copies_of 0 tr = 1%nat /\ closes_of 0 tr = 1%nat
    /\ res = Err (Errorf "failed to close response body: %w" (External 8) []).
Proof.
  destruct (RoundTrip_releases_responses Sample.refused
              (Sample.retrier (Sample.always Sample.unclosable) 4)
              Sample.oneShot) as (tr & res & Hrun & H).
  exists tr, res. split; [exact Hrun|].
  assert (In (EvSend 0 (Some 0%nat)) tr /\ res <> Ok Sample.unclosable)
    as [Hin Hres].
  { vm_compute in Hrun. injection Hrun as <- <-.
    split; [cbn; tauto | discriminate]. }
  destruct (H 0 (Some 0%nat) Sample.unclosable Hin eq_refl)
    as [[Hok _] | (Hc & Hl & pre & sent & post & _ & _ & Hclose)];
    [contradiction|].
  destruct (Hclose (External 8) eq_refl eq_refl) as [-> _]. auto.
Defined.

(** ** Further properties of the backoff strategies *)

Section MoreBackoff.

Import Int64.

Lemma ExponentialBackoff_in_range (base cap attempt : Z) :
  in_range base -> in_range cap ->
  in_range (ExponentialBackoff base cap attempt).
Proof.
  intros Hb Hc. unfold ExponentialBackoff.
  destruct ((attempt =? 0) && (cap <? base)); [exact Hb|]. cbv zeta.
  destruct ((cap <? _) || (_ <=? 0)); [exact Hc | apply wrap_in_range].
Qed.

(** A wrapped multiple of [2^a] that is positive is at least [2^a]. *)
Lemma wrap_mul_pow2_positive (b a : Z) :
  0 <= a < 64 -> 0 < wrap (b * 2 ^ a) -> 2 ^ a <= wrap (b * 2 ^ a).
Proof.
  intros Ha Hpos. destruct (wrap_mul_pow2_multiple b a Ha) as [m Hm].
  rewrite Hm in Hpos |- *.
  assert (0 < 2 ^ a) as Hp by (apply Z.pow_pos_nonneg; lia).
  destruct (Z_le_gt_dec m 0) as [Hm0 | Hm0].
  - assert (m * 2 ^ a <= 0) by (apply Z.mul_nonpos_nonneg; lia). lia.
  - assert (1 * 2 ^ a <= m * 2 ^ a)
      by (apply Z.mul_le_mono_nonneg_r; lia).
    lia.
Qed.

Lemma quot2_nonpos (e : Z) : Z.quot e 2 <= 0 <-> e <= 1.
Proof.
  destruct (Z_lt_le_dec e 0) as [Hneg | Hpos].
  - replace e with (- (- e)) at 1 by lia. rewrite Z.quot_opp_l by lia.
    pose proof (Z.quot_pos (- e) 2). lia.
  - rewrite Z.quot_div_nonneg by lia.
    pose proof (Z.div_mod e 2). pose proof (Z.mod_pos_bound e 2). lia.
Qed.

End MoreBackoff.

Lemma ExponentialBackoff_outside_cap (base cap attempt : Z) :
  Int64.min_int <= attempt <= Int64.max_int ->
  attempt < 0 \/ 63 <= attempt ->
  ExponentialBackoff base cap attempt = cap.
Proof.
  intros Hrange [Hneg | Hbig].
  - unfold ExponentialBackoff.
    assert ((attempt =? 0) = false) as -> by (apply Z.eqb_neq; lia).
    cbn [andb]. cbv zeta.
    pose proof (to_uint_neg attempt) as Hu.
    unfold Int64.shl_one.
    assert ((Int64.to_uint attempt <? 64) = false) as ->
        by (apply Z.ltb_ge; apply Hu; lia).
    rewrite Z.mul_0_r. change (Int64.wrap 0) with 0.
    now rewrite orb_true_r.
  - rewrite ExponentialBackoff_pow by lia.
    assert ((attempt =? 0) = false) as -> by (apply Z.eqb_neq; lia).
    cbn [andb]. cbv zeta.
    assert (Int64.wrap (base * 2 ^ attempt) <= 0) as Hd.
    { destruct (Z_lt_le_dec attempt 64) as [Hs | Hs].
      - assert (attempt = 63) as -> by lia.
        destruct (wrap_mul_pow2_multiple base 63) as [m Hm]; [lia|].
        pose proof (wrap_in_range (base * 2 ^ 63)) as Hr.
        rewrite Hm in *. unfold Int64.in_range, Int64.min_int,
          Int64.max_int in Hr. lia.
      - rewrite wrap_mul_pow2_big by lia. lia. }
    apply Z.leb_le in Hd. rewrite Hd. now rewrite orb_true_r.
Qed.

(** X1.  Outside the attempt indices 0..62 the shifted factor is zero or
    the sign bit alone, the product is never positive, and the delay is
    the cap whatever the base. *)
Theorem ExponentialBackoff_saturates_outside (base cap attempt : Z) :
  Int64.min_int <= attempt <= Int64.max_int ->
  attempt < 0 \/ 63 <= attempt ->
  ExponentialBackoff base cap attempt = cap.
Proof. apply ExponentialBackoff_outside_cap. Qed.

Lemma ExponentialBackoff_saturates_outside_witness :
  ExponentialBackoff 300000000 10000000000 (-1) = 10000000000
  /\ ExponentialBackoff 1 10000000000 63 = 10000000000.
Proof.
  split.
  - apply (ExponentialBackoff_saturates_outside 300000000 10000000000 (-1)).
    + vm_compute. split; discriminate.
    + left. lia.
  - apply (ExponentialBackoff_saturates_outside 1 10000000000 63).
    + vm_compute. split; discriminate.
    + right. lia.
Defined.

(** X2.  When [base] is positive and [base * cap] fits in 63 bits, no
    wrapped product can slip under the cap: at every attempt index from
    0 on the delay is [min (base * 2^attempt) cap], apart from the
    escape at attempt 0 when [base > cap]. *)
Theorem ExponentialBackoff_exact_when_small (base cap attempt : Z) :
  0 < base -> 0 <= cap -> base * cap < 2 ^ 63 ->
  0 <= attempt <= Int64.max_int ->
  ExponentialBackoff base cap attempt
  = if (attempt =? 0) && (cap <? base) then base
    else Z.min (base * 2 ^ attempt) cap.
Proof.
  intros Hb Hc Hbc Ha.
  destruct ((attempt =? 0) && (cap <? base)) eqn:Hsp.
  - unfold ExponentialBackoff. now rewrite Hsp.
  - apply ExponentialBackoff_min; try assumption.
    intros [H0 Hlt]. apply Z.eqb_eq in H0. apply Z.ltb_lt in Hlt.
    rewrite H0, Hlt in Hsp. discriminate.
Qed.

Lemma ExponentialBackoff_exact_when_small_witness :
  ExponentialBackoff 500000000 10000000000 40
  = Z.min (500000000 * 2 ^ 40) 10000000000.
Proof.
  apply (ExponentialBackoff_exact_when_small 500000000 10000000000 40);
    try lia; vm_compute; try reflexivity; split; discriminate.
Defined.

(** X3.  Under the same bound, and with [base <= cap], the delay never
    decreases from one attempt index to a later one and never exceeds
    the cap: the delays grow until they stay at the cap. *)
Theorem ExponentialBackoff_nondecreasing_when_small (base cap a b : Z) :
  0 < base -> base <= cap -> base * cap < 2 ^ 63 ->
  0 <= a -> a <= b -> b <= Int64.max_int ->
  ExponentialBackoff base cap a <= ExponentialBackoff base cap b <= cap.
Proof. apply ExponentialBackoff_monotone_small. Qed.

Lemma ExponentialBackoff_nondecreasing_when_small_witness :
  ExponentialBackoff 500000000 10000000000 3
  <= ExponentialBackoff 500000000 10000000000 40 <= 10000000000.
Proof.
  apply (ExponentialBackoff_nondecreasing_when_small
           500000000 10000000000 3 40);
    try lia; vm_compute; try reflexivity; discriminate.
Defined.

(** X4.  For arguments that are 64-bit durations, the jitter strategy
    panics exactly at the attempts whose exponential delay is at most
    one nanosecond: half of it leaves no room for an offset. *)
Theorem JitterBackoff_panics_iff (base cap raw attempt : Z) :
  Int64.in_range base -> Int64.in_range cap ->
  JitterBackoff base cap raw attempt = None
  <-> ExponentialBackoff base cap attempt <= 1.
Proof.
  intros Hb Hc.
  pose proof (ExponentialBackoff_in_range base cap attempt Hb Hc) as He.
  unfold JitterBackoff, Int63n, Int64.div.
  set (e := ExponentialBackoff base cap attempt) in *.
  assert (Int64.in_range (Z.quot e 2)) as Hq.
  { unfold Int64.in_range, Int64.min_int, Int64.max_int in *.
    destruct (Z_lt_le_dec e 0) as [Hneg | Hpos].
    - assert (Z.quot e 2 = - Z.quot (- e) 2) as ->
          by (rewrite <- Z.quot_opp_l by lia; f_equal; lia).
      pose proof (Z.quot_pos (- e) 2).
      assert (Z.quot (- e) 2 <= - e)
        by (rewrite Z.quot_div_nonneg by lia;
            apply Z.div_le_upper_bound; lia).
      lia.
    - rewrite Z.quot_div_nonneg by lia.
      assert (0 <= e / 2) by (apply Z.div_pos; lia).
      assert (e / 2 <= e) by (apply Z.div_le_upper_bound; lia).
      lia. }
  rewrite (wrap_id _ Hq). rewrite <- quot2_nonpos.
  destruct (Z.quot e 2 <=? 0) eqn:Hle.
  - apply Z.leb_le in Hle. tauto.
  - apply Z.leb_gt in Hle. split; [discriminate | lia].
Qed.

Lemma JitterBackoff_panics_iff_witness :
  JitterBackoff 1 1 5 0 = None <-> ExponentialBackoff 1 1 0 <= 1.
Proof.
  apply (JitterBackoff_panics_iff 1 1 5 0); vm_compute; split; discriminate.
Defined.

(** ** Further properties of the loop *)

Section Effort.

Variable transport : RoundTripper.
Variable retryStrategy : RetryStrategy.
Variable MaxRetries : Z.

Local Abbreviation pass := (iteration transport retryStrategy MaxRetries).
Local Abbreviation run := (loop transport retryStrategy MaxRetries).

Lemma discard_quiet (attempt : Z) (resp : option Response) ev2 o :
  discard attempt resp = (ev2, o) -> sends ev2 = 0%nat /\ sleeps ev2 = [].
Proof.
  unfold discard. destruct resp; intros [= <- _]; auto.
Qed.

Lemma In_attempts (a from : Z) (n : nat) :
  In a (attempts from n) -> from <= a < from + Z.of_nat n.
Proof.
  revert from. induction n as [|n IH]; intros from; cbn [attempts In];
    [tauto|].
  intros [<- | Hin]; [lia|]. specialize (IH _ Hin). lia.
Qed.

(** A pass leaves the rewind capability where it is. *)
Lemma iteration_GetBody (attempt : Z) (req : Request) ev req' c :
  pass attempt req = (ev, req', c) -> GetBody req' = GetBody req.
Proof.
  intros Hit.
  pose proof (iteration_viewP transport retryStrategy MaxRetries
                attempt req) as V.
  rewrite Hit in V.
  inversion V; subst;
    match goal with
    | H : rewind _ _ = _ |- _ =>
        exact (proj2 (rewind_events _ _ _ _ _ H))
    end.
Qed.

(** Sends and waits of a run from [attempt]: the waits are those of the
    strategy at the successive attempt indices, there are no more of
    them than retries left, and each is preceded by a send; at most one
    send is not followed by a wait. *)
Lemma loop_effort (fuel : nat) :
  forall attempt req tr res,
    run fuel attempt req = Some (tr, res) ->
    sleeps tr = map retryStrategy (attempts attempt (List.length (sleeps tr)))
    /\ (List.length (sleeps tr) <= Z.to_nat (MaxRetries - attempt))%nat
    /\ (List.length (sleeps tr) <= sends tr <= S (List.length (sleeps tr)))%nat
    /\ (sends tr <= Z.to_nat (MaxRetries + 1 - attempt))%nat.
Proof.
  induction fuel as [|fuel IH]; intros attempt req tr res Hl;
    apply loop_inv in Hl;
    destruct Hl as [(_ & -> & _) | (Hle & fuel' & ev & req' & Hf & Hl)];
    try (cbn; repeat split; lia); try discriminate.
  injection Hf as <-.
  pose proof (iteration_viewP transport retryStrategy MaxRetries
                attempt req) as V.
  destruct Hl as [[Hit ->] | [Hit (tr' & Hl & ->)]]; rewrite Hit in V.
  - inversion V; subst; clear V;
      match goal with
      | H : rewind _ _ = _ |- _ =>
          destruct (rewind_untouched attempt attempt _ _ _ _ None H)
            as (_ & _ & Hs0 & Hz0 & _)
      end;
      try match goal with
        | H : discard _ _ = _ |- _ =>
            destruct (discard_quiet _ _ _ _ H) as [Hs2 Hz2]
        end;
      rewrite ?sends_app, ?sleeps_app, ?Hs0, ?Hz0, ?Hs2, ?Hz2;
      cbn; repeat split; lia.
  - inversion V; subst; clear V.
    match goal with
    | H : rewind _ _ = _ |- _ =>
        destruct (rewind_untouched attempt attempt _ _ _ _ None H)
          as (_ & _ & Hs0 & Hz0 & _)
    end.
    match goal with
    | H : discard _ _ = _ |- _ =>
        destruct (discard_quiet _ _ _ _ H) as [Hs2 Hz2]
    end.
    destruct (IH _ _ _ _ Hl) as (Hmap & Hlen & Hbetween & Hsends).
    rewrite !sends_app, !sleeps_app, Hs0, Hz0, Hs2, Hz2.
    cbn [app sleeps sends filter is_send List.length Nat.add].
    split; [cbn [attempts map]; now rewrite <- Hmap|].
    repeat split; lia.
Qed.

(** How a run can end, and on account of which send. *)
Lemma loop_outcome (fuel : nat) :
  forall attempt req tr res,
    run fuel attempt req = Some (tr, res) ->
    match res with
    | Ok resp =>
        exists k, attempt <= k <= MaxRetries
                  /\ transport k = (Some resp, None)
                  /\ StatusCode resp < 500
    | Panic =>
        exists k pre sent,
          attempt <= k <= MaxRetries
          /\ transport k = (None, None)
          /\ tr = pre ++ [EvSend k sent]
    | Err e =>
        (MaxRetries < attempt /\ tr = [] /\ e = ErrAllRetriesFailed)
        \/ (exists k getBody clone x,
               attempt <= k <= MaxRetries
               /\ GetBody req = Some getBody
               /\ getBody k = (clone, Some x)
               /\ e = Errorf "failed to get request body for retry: %w" x [])
        \/ (exists k resp x,
               attempt <= k <= MaxRetries
               /\ fst (transport k) = Some resp
               /\ copyErr resp = Some x
               /\ e = Errorf "failed to discard response body: %w" x [])
        \/ (exists k resp x,
               attempt <= k <= MaxRetries
               /\ fst (transport k) = Some resp
               /\ copyErr resp = None /\ closeErr resp = Some x
               /\ e = Errorf "failed to close response body: %w" x [])
        \/ (exists resp x,
               attempt <= MaxRetries
               /\ transport MaxRetries = (resp, Some x)
               /\ e = Errorf "all retries failed; last error: %w" x [])
        \/ (exists resp,
               attempt <= MaxRetries
               /\ transport MaxRetries = (Some resp, None)
               /\ 500 <= StatusCode resp
               /\ e = Errorf "%w: last attempt failed with status %d"
                            ErrAllRetriesFailed [StatusCode resp])
    end.
Proof.
  induction fuel as [|fuel IH]; intros attempt req tr res Hl;
    apply loop_inv in Hl;
    destruct Hl as [(Hgt & -> & ->) | (Hle & fuel' & ev & req' & Hf & Hl)];
    try (left; auto; fail); try discriminate.
  injection Hf as <-.
  pose proof (iteration_viewP transport retryStrategy MaxRetries
                attempt req) as V.
  destruct Hl as [[Hit ->] | [Hit (tr' & Hl & ->)]].
  - rewrite Hit in V. inversion V; subst; clear V.
    + (* the rewind failed *)
      right. left.
      match goal with H : rewind _ _ = _ |- _ => unfold rewind in H end.
      destruct (Body req); [|discriminate].
      destruct (GetBody req) as [g|]; [|discriminate].
      destruct (g attempt) as [clone [x|]] eqn:Hg; [|discriminate].
      match goal with H : _ = (_, _, Some _) |- _ =>
                        injection H as _ _ <- end.
      exists attempt, g, clone, x. repeat split; auto; lia.
    + (* early exit *)
      match goal with
      | H : succeeded _ _ = Some _ |- _ =>
          apply (succeeded_Some (transport attempt)) in H;
          destruct H as [Herr Hres]
      end.
      destruct (transport attempt) as [[resp|] err] eqn:Ht;
        cbn [fst snd] in *; subst err.
      * destruct Hres as [-> Hlt]. exists attempt. repeat split; auto; lia.
      * subst. exists attempt, ev0, (Body req'). repeat split; auto; lia.
    + (* the drain or the close failed *)
      match goal with
      | H : discard _ _ = _ |- _ =>
          destruct (discard_Some _ _ _ _ H) as (r & Hr & _ & Hcopy & Hclose);
          rewrite Hr in H; cbn [discard] in H;
          injection H as _ Herr
      end.
      destruct (copyErr r) as [x|] eqn:Hc.
      * right. right. left. exists attempt, r, x.
        rewrite (Hcopy x eq_refl). repeat split; auto; lia.
      * destruct (closeErr r) as [x|] eqn:Hcl; [|discriminate].
        right. right. right. left. exists attempt, r, x.
        rewrite (Hclose x eq_refl eq_refl). repeat split; auto; lia.
    + (* the budget is used up *)
      assert (attempt = MaxRetries) as -> by lia.
      match goal with
      | H : succeeded _ _ = None |- _ =>
          apply succeeded_None in H
      end.
      destruct (transport MaxRetries) as [[resp|] [x|]] eqn:Ht;
        cbn [fst snd retryable exhausted] in *.
      * right. right. right. right. left. exists (Some resp), x. auto.
      * right. right. right. right. right. exists resp.
        unfold StatusInternalServerError in *. auto.
      * right. right. right. right. left. exists None, x. auto.
      * contradiction.
  - specialize (IH _ _ _ _ Hl).
    pose proof (iteration_GetBody _ _ _ _ _ Hit) as Hgb.
    assert (attempt < MaxRetries) as Hlt
        by (rewrite Hit in V; inversion V; assumption).
    destruct res as [resp | e |].
    + destruct IH as (k & Hk & H). exists k. split; [lia | exact H].
    + destruct IH as [(Hgt & _) | IH]; [lia|]. right.
      destruct IH as [(k & g & clone & x & Hk & Hg & H) | IH].
      { left. exists k, g, clone, x. rewrite <- Hgb.
        split; [lia|]. split; [exact Hg | exact H]. }
      right. destruct IH as [(k & r & x & Hk & H) | IH].
      { left. exists k, r, x. split; [lia | exact H]. }
      right. destruct IH as [(k & r & x & Hk & H) | IH].
      { left. exists k, r, x. split; [lia | exact H]. }
      right. destruct IH as [(r & x & Hk & H) | (r & Hk & H)].
      { left. exists r, x. split; [lia | exact H]. }
      right. exists r. split; [lia | exact H].
    + destruct IH as (k & pre & sent & Hk & Ht & ->).
      exists k, (ev ++ pre), sent. split; [lia|]. split; [exact Ht|].
      now rewrite app_assoc.
Qed.

End Effort.

(** ** Runs that recover *)

Section Recovery.

Variable transport : RoundTripper.
Variable retryStrategy : RetryStrategy.
Variable MaxRetries : Z.

Local Abbreviation pass := (iteration transport retryStrategy MaxRetries).
Local Abbreviation run := (loop transport retryStrategy MaxRetries).

(** The drains and closes of attempt [attempt] in the events of its own
    retried pass. *)
Lemma retried_pass_counts (attempt : Z) (ev0 : list event) (sent : body) :
  copies_of attempt ev0 = 0%nat -> closes_of attempt ev0 = 0%nat ->
  sends ev0 = 0%nat -> sleeps ev0 = [] ->
  let ev :=
    (ev0 ++ [EvSend attempt sent])
    ++ match fst (transport attempt) with
       | Some _ => [EvCopy attempt; EvClose attempt]
       | None => []
       end
    ++ [EvPrintf (attempt + 1) (retryStrategy attempt);
        EvSleep (retryStrategy attempt)] in
  copies_of attempt ev = match fst (transport attempt) with Some _ => 1 | None => 0 end%nat
  /\ closes_of attempt ev = match fst (transport attempt) with Some _ => 1 | None => 0 end%nat
  /\ sends ev = 1%nat
  /\ sleeps ev = [retryStrategy attempt].
Proof.
  intros Hc Hl Hs Hz ev. subst ev.
  rewrite !copies_of_app, !closes_of_app, !sends_app, !sleeps_app,
    Hc, Hl, Hs, Hz.
  destruct (fst (transport attempt)); unfold copies_of, closes_of, sends;
    cbn; rewrite ?Z.eqb_refl; auto.
Qed.

(** Failures from [attempt] up to [k - 1], then a response below 500 at
    attempt [k]. *)
Lemma loop_recovers (k : Z) (resp : Response) (fuel : nat) :
  k <= MaxRetries ->
  transport k = (Some resp, None) ->
  StatusCode resp < 500 ->
  forall attempt req,
    attempt <= k ->
    (Z.to_nat (MaxRetries + 1 - attempt) <= fuel)%nat ->
    rewinds_ok req attempt k ->
    (forall j, attempt <= j < k ->
               retryable (transport j) /\ released (transport j)) ->
    exists tr,
      run fuel attempt req = Some (tr, Ok resp)
      /\ sends tr = Z.to_nat (k + 1 - attempt)
      /\ sleeps tr
         = map retryStrategy (attempts attempt (Z.to_nat (k - attempt)))
      /\ (forall j, attempt <= j < k ->
            copies_of j tr = match fst (transport j) with Some _ => 1 | None => 0 end%nat
            /\ closes_of j tr = match fst (transport j) with Some _ => 1 | None => 0 end%nat)
      /\ copies_of k tr = 0%nat /\ closes_of k tr = 0%nat.
Proof.
  intros HkN Htk Hcode.
  induction fuel as [|fuel IH]; intros attempt req Hle Hfuel Hrw Hall;
    [lia|].
  destruct (rewind_ok attempt req (rewinds_ok_here _ _ _ Hle Hrw))
    as (ev0 & req1 & Hr).
  destruct (rewind_untouched attempt attempt req ev0 req1 None None Hr)
    as (Hc0 & Hl0 & Hs0 & Hz0 & _).
  destruct (rewind_events attempt req ev0 req1 None Hr) as [_ Hgb].
  cbn [loop].
  assert ((attempt <=? MaxRetries) = true) as -> by (apply Z.leb_le; lia).
  destruct (Z.eq_dec attempt k) as [-> | Hne].
  - (* the send that succeeds *)
    unfold iteration. rewrite Hr, Htk. cbn [succeeded].
    unfold StatusInternalServerError.
    apply Z.ltb_lt in Hcode. rewrite Hcode.
    eexists. split; [reflexivity|].
    rewrite sends_app, sleeps_app, copies_of_app, closes_of_app,
      Hs0, Hz0, Hc0, Hl0.
    replace (k + 1 - k) with 1 by lia. replace (k - k) with 0 by lia.
    repeat split; try reflexivity; lia.
  - (* a send that fails *)
    destruct (Hall attempt ltac:(lia)) as [Hret Hrel].
    pose proof (iteration_retry transport retryStrategy MaxRetries
                  attempt req ev0 req1 Hr Hret Hrel) as Hit.
    cbv zeta in Hit.
    assert ((attempt <? MaxRetries) = true) as Hlt
        by (apply Z.ltb_lt; lia).
    rewrite Hlt in Hit. rewrite Hit.
    destruct (IH (attempt + 1) req1 ltac:(lia) ltac:(lia)) as
      (tr & Hrun & Hsends & Hsleeps & Hdrains & Hck & Hlk).
    { apply (rewinds_ok_next req req1 attempt k Hgb Hrw). }
    { intros j Hj. apply Hall. lia. }
    rewrite Hrun.
    destruct (retried_pass_counts attempt ev0 (Body req1) Hc0 Hl0 Hs0 Hz0)
      as (Hce & Hle' & Hse & Hze).
    cbv zeta in Hce, Hle', Hse, Hze.
    set (ev := (ev0 ++ [EvSend attempt (Body req1)]) ++ _) in *.
    assert (forall e j, In e tr -> attempt_of e = Some j -> attempt + 1 <= j)
      as Hge by (intros e j; eapply loop_attempts_ge; eassumption).
    assert (forall j, j <> attempt ->
              copies_of j ev = 0%nat /\ closes_of j ev = 0%nat) as Hother.
    { intros j Hj. apply untouched. intros e i He Hi.
      rewrite (iteration_attempt_of _ _ _ _ _ _ _ _ Hit _ _ He Hi).
      congruence. }
    destruct (untouched attempt tr) as [Hct Hlt'].
    { intros e j He Hj. specialize (Hge e j He Hj). lia. }
    eexists. split; [reflexivity|].
    rewrite sends_app, sleeps_app, Hse, Hze, Hsends, Hsleeps.
    split; [lia|]. split.
    { replace (Z.to_nat (k - attempt))
        with (S (Z.to_nat (k - (attempt + 1)))) by lia.
      reflexivity. }
    split.
    { intros j Hj. rewrite copies_of_app, closes_of_app.
      destruct (Z.eq_dec j attempt) as [-> | Hja].
      - rewrite Hce, Hle', Hct, Hlt'. split; lia.
      - destruct (Hother j Hja) as [-> ->].
        destruct (Hdrains j ltac:(lia)) as [-> ->]. split; reflexivity. }
    rewrite copies_of_app, closes_of_app.
    destruct (Hother k ltac:(lia)) as [-> ->]. rewrite Hck, Hlk.
    split; reflexivity.
Qed.

End Recovery.

(** ** Further properties of [RoundTrip] *)

(** X6.  If the sends of the attempts before [k] are retryable and their
    responses are released without error, the rewinds succeed, and the
    send of attempt [k <= MaxRetries] comes back without error with a
    status below 500, then [RoundTrip] returns that response after
    exactly [k + 1] sends and [k] waits; each earlier response was
    drained and closed exactly once and the returned one not at all. *)
Theorem RoundTrip_recovers (D : RoundTripper) (r : retryTransport.t)
  (req : Request) (k : Z) (resp : Response) :
  0 <= k <= retryTransport.MaxRetries r ->
  rewinds_ok req 0 k ->
  (forall j, 0 <= j < k ->
             retryable (transportOf D r j) /\ released (transportOf D r j)) ->
  transportOf D r k = (Some resp, None) ->
  StatusCode resp < 500 ->
  exists tr,
    RoundTrip D r req = Some (tr, Ok resp)
    /\ sends tr = Z.to_nat (k + 1)
    /\ sleeps tr = map (strategyOf r) (attempts 0 (Z.to_nat k))
    /\ (forall j, 0 <= j < k ->
          copies_of j tr
          = match fst (transportOf D r j) with Some _ => 1 | None => 0 end%nat
          /\ closes_of j tr
             = match fst (transportOf D r j) with
               | Some _ => 1
               | None => 0
               end%nat)
    /\ copies_of k tr = 0%nat /\ closes_of k tr = 0%nat.
Proof.
  intros Hk Hrw Hall Htk Hcode. unfold RoundTrip.
  assert (Z.to_nat (retryTransport.MaxRetries r + 1 - 0)
          <= Z.to_nat (retryTransport.MaxRetries r + 1))%nat as Hfuel
      by (rewrite Z.sub_0_r; apply Nat.le_refl).
  destruct (loop_recovers (transportOf D r) (strategyOf r)
              (retryTransport.MaxRetries r) k resp
              (Z.to_nat (retryTransport.MaxRetries r + 1))
              (proj2 Hk) Htk Hcode 0 req (proj1 Hk) Hfuel Hrw Hall)
    as (tr & Hrun & Hsends & Hsleeps & Hrest).
  rewrite Z.sub_0_r in Hsends, Hsleeps.
  exists tr. auto.
Qed.

Lemma RoundTrip_recovers_witness :
  exists tr,
    RoundTrip Sample.refused (Sample.retrier Sample.flaky 5) Sample.replayable
    = Some (tr, Ok (Sample.plain 200))
    /\ sends tr = 4%nat
    /\ sleeps tr = [7; 7; 7]
    /\ copies_of 2 tr = 1%nat /\ copies_of 3 tr = 0%nat.
Proof.
  destruct (RoundTrip_recovers Sample.refused (Sample.retrier Sample.flaky 5)
              Sample.replayable 3 (Sample.plain 200))
    as (tr & Hrun & Hsends & Hsleeps & Hdrains & Hc & _).
  - cbn. lia.
  - cbn. intros j _. reflexivity.
  - intros j Hj. cbn. unfold Sample.flaky.
    assert ((j <? 3) = true) as -> by (apply Z.ltb_lt; lia).
    cbn. unfold StatusInternalServerError. split; [lia | auto].
  - reflexivity.
  - cbn. lia.
  - exists tr. split; [exact Hrun|]. split; [exact Hsends|].
    split; [exact Hsleeps|]. split; [|exact Hc].
    destruct (Hdrains 2 ltac:(lia)) as [H2 _]. exact H2.
Defined.

(** X8.  Every error [RoundTrip] returns is of one of six kinds, each
    with its cause: the bare sentinel, only for a negative [MaxRetries];
    the body-replay error around the error of a [GetBody] call; the
    drain error or the close error around the error of the body of a
    response; and, at attempt [MaxRetries], the last transport error
    wrapped, or the sentinel wrapped with the status of a response at or
    above 500. *)
Theorem RoundTrip_error_taxonomy (D : RoundTripper) (r : retryTransport.t)
  (req : Request) :
  exists tr res,
    RoundTrip D r req = Some (tr, res)
    /\ forall e,
        res = Err e ->
        (retryTransport.MaxRetries r < 0 /\ tr = []
         /\ e = ErrAllRetriesFailed)
        \/ (exists k getBody clone x,
               0 <= k <= retryTransport.MaxRetries r
               /\ GetBody req = Some getBody
               /\ getBody k = (clone, Some x)
               /\ e = Errorf "failed to get request body for retry: %w" x [])
        \/ (exists k resp x,
               0 <= k <= retryTransport.MaxRetries r
               /\ fst (transportOf D r k) = Some resp
               /\ copyErr resp = Some x
               /\ e = Errorf "failed to discard response body: %w" x [])
        \/ (exists k resp x,
               0 <= k <= retryTransport.MaxRetries r
               /\ fst (transportOf D r k) = Some resp
               /\ copyErr resp = None /\ closeErr resp = Some x
               /\ e = Errorf "failed to close response body: %w" x [])
        \/ (exists resp x,
               0 <= retryTransport.MaxRetries r
               /\ transportOf D r (retryTransport.MaxRetries r)
                  = (resp, Some x)
               /\ e = Errorf "all retries failed; last error: %w" x [])
        \/ (exists resp,
               0 <= retryTransport.MaxRetries r
               /\ transportOf D r (retryTransport.MaxRetries r)
                  = (Some resp, None)
               /\ 500 <= StatusCode resp
               /\ e = Errorf "%w: last attempt failed with status %d"
                            ErrAllRetriesFailed [StatusCode resp]).
Proof.
  destruct (RoundTrip_total D r req) as (tr & res & Hrun).
  exists tr, res. split; [exact Hrun|]. unfold RoundTrip in Hrun.
  intros e ->. exact (loop_outcome _ _ _ _ _ _ _ _ Hrun).
Qed.

Lemma RoundTrip_error_taxonomy_witness :
  exists tr res,
    RoundTrip Sample.refused
      (Sample.retrier (Sample.always Sample.unclosable) 4) Sample.noBody
    = Some (tr, res)
    /\ (res = Err (Errorf "failed to close response body: %w"
                          (External 8) [])
        -> exists k resp,
            fst (Sample.always Sample.unclosable k) = Some resp
            /\ closeErr resp = Some (External 8)).
Proof.
  destruct (RoundTrip_error_taxonomy Sample.refused
              (Sample.retrier (Sample.always Sample.unclosable) 4)
              Sample.noBody) as (tr & res & Hrun & H).
  exists tr, res. split; [exact Hrun|]. intros Hres.
  destruct (H _ Hres)
    as [(_ & _ & He) | [(k & g & c & x & _ & _ & _ & He)
       | [(k & resp & x & _ & _ & _ & He)
       | [(k & resp & x & _ & Hr & _ & Hcl & He)
       | [(resp & x & _ & _ & He) | (resp & _ & _ & _ & He)]]]]];
    try discriminate.
  injection He as <-. exists k, resp. auto.
Defined.

(** X9.  The bare [ErrAllRetriesFailed] is returned exactly when
    [MaxRetries] is negative: with a budget of zero or more the sentinel
    only ever comes wrapped with a status code, and the fallback of the
    exhaustion branch is never taken. *)
Theorem RoundTrip_bare_sentinel_iff (D : RoundTripper)
  (r : retryTransport.t) (req : Request) :
  exists tr res,
    RoundTrip D r req = Some (tr, res)
    /\ (res = Err ErrAllRetriesFailed <-> retryTransport.MaxRetries r < 0).
Proof.
  destruct (RoundTrip_total D r req) as (tr & res & Hrun).
  exists tr, res. split; [exact Hrun|]. unfold RoundTrip in Hrun. split.
  - intros ->.
    destruct (loop_outcome _ _ _ _ _ _ _ _ Hrun)
      as [(Hneg & _) | [(k & g & c & x & _ & _ & _ & He)
         | [(k & resp & x & _ & _ & _ & He)
         | [(k & resp & x & _ & _ & _ & _ & He)
         | [(resp & x & _ & _ & He) | (resp & _ & _ & _ & He)]]]]];
      try discriminate.
    exact Hneg.
  - intros Hneg. apply loop_inv in Hrun.
    destruct Hrun as [(_ & _ & ->) | (Hle & _)]; [reflexivity | lia].
Qed.

Lemma RoundTrip_bare_sentinel_iff_witness :
  exists tr res,
    RoundTrip Sample.refused
      (Sample.retrier (Sample.always (Sample.plain 503)) 0) Sample.noBody
    = Some (tr, res)
    /\ res <> Err ErrAllRetriesFailed.
Proof.
  destruct (RoundTrip_bare_sentinel_iff Sample.refused
              (Sample.retrier (Sample.always (Sample.plain 503)) 0)
              Sample.noBody) as (tr & res & Hrun & Hiff).
  exists tr, res. split; [exact Hrun|].
  intros Hres. apply Hiff in Hres. cbn in Hres. lia.
Defined.

(** X10.  A client made by [NewClient] without a strategy waits
    [min (500ms * 2^k) 10s] before its retry number [k + 1], whatever
    the transport and the request. *)
Theorem NewClient_default_delays (D : RoundTripper) (maxRetries : Z)
  (baseTransport : option RoundTripper) (req : Request) :
  maxRetries <= Int64.max_int ->
  exists tr res,
    RoundTrip D (NewClient D maxRetries None baseTransport) req
    = Some (tr, res)
    /\ sleeps tr
       = map (fun k => Z.min (DefaultBaseDelay * 2 ^ k) DefaultMaxDelay)
             (attempts 0 (List.length (sleeps tr)))
    /\ (List.length (sleeps tr) <= Z.to_nat maxRetries)%nat.
Proof.
  intros Hmax.
  destruct (RoundTrip_total D (NewClient D maxRetries None baseTransport) req)
    as (tr & res & Hrun).
  exists tr, res. split; [exact Hrun|]. unfold RoundTrip in Hrun.
  destruct (loop_effort _ _ _ _ _ _ _ _ Hrun) as (Hmap & Hlen & _ & _).
  clear Hrun.
  change (strategyOf (NewClient D maxRetries None baseTransport))
    with (ExponentialBackoff 500000000 10000000000) in Hmap.
  change (retryTransport.MaxRetries
            (NewClient D maxRetries None baseTransport))
    with maxRetries in Hlen.
  change DefaultBaseDelay with 500000000.
  change DefaultMaxDelay with 10000000000.
  rewrite Z.sub_0_r in Hlen. split; [|exact Hlen].
  rewrite Hmap at 1. apply map_ext_in. intros k Hin.
  apply In_attempts in Hin.
  assert (0 <= k <= Int64.max_int) as Hk.
  { unfold Int64.max_int in *. change (2 ^ 63) with 9223372036854775808 in *.
    lia. }
  apply (ExponentialBackoff_min 500000000 10000000000 k);
    [lia | lia | reflexivity | exact Hk | lia].
Qed.

Lemma NewClient_default_delays_witness :
  exists tr res,
    RoundTrip Sample.refused
      (NewClient Sample.refused 3 None
                 (Some (Sample.always (Sample.plain 502)))) Sample.noBody
    = Some (tr, res)
    /\ sleeps tr = [500000000; 1000000000; 2000000000].
Proof.
  destruct (NewClient_default_delays Sample.refused 3
              (Some (Sample.always (Sample.plain 502))) Sample.noBody)
    as (tr & res & Hrun & Hsleeps & _).
  - vm_compute. discriminate.
  - exists tr, res. split; [exact Hrun|].
    assert (List.length (sleeps tr) = 3%nat) as Hlen.
    { vm_compute in Hrun. injection Hrun as <- _. reflexivity. }
    rewrite Hsleeps, Hlen. reflexivity.
Defined.

(** ** The client builder *)

Section Builder.

Lemma clamp_range (lo hi dflt v : Z) :
  lo <= dflt <= hi -> lo <= clamp lo hi dflt v <= hi.
Proof.
  intros Hd. unfold clamp.
  destruct ((v <? lo) || (hi <? v)) eqn:Hc; [exact Hd|].
  apply orb_false_elim in Hc as [H1 H2].
  apply Z.ltb_ge in H1. apply Z.ltb_ge in H2. lia.
Qed.

Lemma clamp_id (lo hi dflt v : Z) :
  lo <= v <= hi -> clamp lo hi dflt v = v.
Proof.
  intros Hv. unfold clamp.
  assert ((v <? lo) = false) as -> by (apply Z.ltb_ge; lia).
  assert ((hi <? v) = false) as -> by (apply Z.ltb_ge; lia).
  reflexivity.
Qed.

Lemma clamp_out (lo hi dflt v : Z) :
  v < lo \/ hi < v -> clamp lo hi dflt v = dflt.
Proof.
  intros Hv. unfold clamp.
  destruct ((v <? lo) || (hi <? v)) eqn:Hc; [reflexivity|].
  apply orb_false_elim in Hc as [H1 H2].
  apply Z.ltb_ge in H1. apply Z.ltb_ge in H2. lia.
Qed.

Lemma warned_nil (lo hi dflt : Z) msg show (v : Z) :
  warned lo hi dflt msg show v = [] <-> lo <= v <= hi.
Proof.
  unfold warned.
  destruct ((v <? lo) || (hi <? v)) eqn:Hc.
  - apply orb_prop in Hc as [H | H]; apply Z.ltb_lt in H;
      split; [discriminate | lia | discriminate | lia].
  - apply orb_false_elim in Hc as [H1 H2].
    apply Z.ltb_ge in H1. apply Z.ltb_ge in H2. split; [lia | reflexivity].
Qed.

(** A validation block, as a clamp of the setting and a warning. *)
Lemma check_eq (get : Client -> Z) (set : Z -> Client -> Client)
  (lo hi dflt : Z) msg show (st : Client * list warning) :
  (forall c, set (get c) c = c) ->
  check get set lo hi dflt msg show st
  = (set (clamp lo hi dflt (get (fst st))) (fst st),
     snd st ++ warned lo hi dflt msg show (get (fst st))).
Proof.
  intros Hsg. destruct st as [c ws]. unfold check, clamp, warned.
  cbn [fst snd].
  destruct ((get c <? lo) || (hi <? get c)); [reflexivity|].
  now rewrite Hsg, app_nil_r.
Qed.

(** The warnings of the validation blocks of [Build], in order. *)
Lemma Build_eq (b : ClientBuilder) :
  Build b
  = ({| client := normalise (client b) |},
     (warned ValidMinIdleConns ValidMaxIdleConns DefaultMaxIdleConns
        "Invalid max idle connections, using default value" VInt
        (maxIdleConns (client b))
      ++ warned ValidMinIdleConnTimeout ValidMaxIdleConnTimeout
           DefaultIdleConnTimeout
           "Invalid idle connection timeout, using default value" VDuration
           (idleConnTimeout (client b))
      ++ warned ValidMinTLSHandshakeTimeout ValidMaxTLSHandshakeTimeout
           DefaultTLSHandshakeTimeout
           "Invalid TLS handshake timeout, using default value" VDuration
           (tlsHandshakeTimeout (client b))
      ++ warned ValidMinExpectContinueTimeout ValidMaxExpectContinueTimeout
           DefaultExpectContinueTimeout
           "Invalid expect continue timeout, using default value" VDuration
           (expectContinueTimeout (client b))
      ++ warned ValidMinIdleConnsPerHost ValidMaxIdleConnsPerHost
           DefaultMaxIdleConnsPerHost
           "Invalid max idle connections per host, using default value" VInt
           (maxIdleConnsPerHost (client b))
      ++ warned ValidMinTimeout ValidMaxTimeout DefaultTimeout
           "Invalid timeout, using default value" VDuration
           (timeout (client b))
      ++ warned ValidMinRetries ValidMaxRetries DefaultMaxRetries
           "Invalid max retries, using default value" VInt
           (maxRetries (client b))
      ++ warned ValidMinBaseDelay ValidMaxBaseDelay DefaultBaseDelay
           "Invalid base delay, using default value" VDuration
           (retryBaseDelay (client b))
      ++ warned ValidMinMaxDelay ValidMaxMaxDelay DefaultMaxDelay
           "Invalid max delay, using default value" VDuration
           (retryMaxDelay (client b))
      ++ warnedStrategy (retryStrategyType (client b))),
     {| httpClient.Timeout := timeout (normalise (client b));
        httpClient.Transport :=
          {| httpTransport.MaxIdleConns := maxIdleConns (normalise (client b));
             httpTransport.IdleConnTimeout :=
               idleConnTimeout (normalise (client b));
             httpTransport.TLSHandshakeTimeout :=
               tlsHandshakeTimeout (normalise (client b));
             httpTransport.ExpectContinueTimeout :=
               expectContinueTimeout (normalise (client b));
             httpTransport.DisableKeepAlives := disableKeepAlives (client b);
             httpTransport.MaxIdleConnsPerHost :=
               maxIdleConnsPerHost (normalise (client b)) |};
        httpClient.MaxRetries := maxRetries (normalise (client b));
        httpClient.RetryStrategy :=
          if String.eqb (retryStrategyType (client b)) FixedDelayStrategy
          then FixedDelayOf (retryBaseDelay (normalise (client b)))
          else if String.eqb (retryStrategyType (client b))
                             JitterBackoffStrategy
          then JitterBackoffOf (retryBaseDelay (normalise (client b)))
                               (retryMaxDelay (normalise (client b)))
          else ExponentialBackoffOf (retryBaseDelay (normalise (client b)))
                                    (retryMaxDelay (normalise (client b))) |}).
Proof.
  destruct b as [[x1 x2 x3 x4 x5 x6 x7 x8 ty x10 x11]].
  unfold Build. cbv zeta. cbn [client].
  repeat
    match goal with
    | |- context [check ?g ?s ?lo ?hi ?d ?m ?sh (?c, ?ws)] =>
        rewrite (check_eq g s lo hi d m sh (c, ws))
          by (intros []; reflexivity);
        cbn [fst snd app
             maxIdleConns idleConnTimeout tlsHandshakeTimeout
             expectContinueTimeout disableKeepAlives maxIdleConnsPerHost
             timeout maxRetries retryStrategyType retryBaseDelay
             retryMaxDelay
             set_maxIdleConns set_idleConnTimeout set_tlsHandshakeTimeout
             set_expectContinueTimeout set_maxIdleConnsPerHost set_timeout
             set_maxRetries set_retryBaseDelay set_retryMaxDelay]
    end.
  cbn [normalise
       maxIdleConns idleConnTimeout tlsHandshakeTimeout
       expectContinueTimeout disableKeepAlives maxIdleConnsPerHost timeout
       maxRetries retryStrategyType retryBaseDelay retryMaxDelay].
  unfold warnedStrategy, IsValid.
  destruct (String.eqb ty FixedDelayStrategy) eqn:Hf;
    destruct (String.eqb ty JitterBackoffStrategy) eqn:Hj;
    destruct (String.eqb ty ExponentialBackoffStrategy) eqn:He;
    cbn [orb]; rewrite ?Hf, ?Hj, ?He, ?app_nil_r, <- ?app_assoc;
    try reflexivity.
  all: apply String.eqb_eq in Hf; subst ty; discriminate.
Qed.

End Builder.

Ltac unfold_settings :=
  unfold ValidMaxIdleConns, ValidMinIdleConns, ValidMaxIdleConnsPerHost,
    ValidMinIdleConnsPerHost, ValidMaxIdleConnTimeout,
    ValidMinIdleConnTimeout, ValidMaxTLSHandshakeTimeout,
    ValidMinTLSHandshakeTimeout, ValidMaxExpectContinueTimeout,
    ValidMinExpectContinueTimeout, ValidMaxTimeout, ValidMinTimeout,
    ValidMaxRetries, ValidMinRetries, ValidMaxBaseDelay, ValidMinBaseDelay,
    ValidMaxMaxDelay, ValidMinMaxDelay, DefaultMaxRetries, DefaultBaseDelay,
    DefaultMaxDelay, DefaultMaxIdleConns, DefaultIdleConnTimeout,
    DefaultTLSHandshakeTimeout, DefaultExpectContinueTimeout,
    DefaultMaxIdleConnsPerHost, DefaultTimeout, Second, Millisecond in *.

Lemma normalise_valid (c : Client) : settings_valid (normalise c).
Proof.
  unfold settings_valid, normalise; cbn.
  repeat split; apply clamp_range; unfold_settings; lia.
Qed.

Lemma normalise_fixed (c : Client) : normalise c = c <-> settings_valid c.
Proof.
  split.
  - intros <-. apply normalise_valid.
  - unfold settings_valid. intros (H1 & H2 & H3 & H4 & H5 & H6 & H7 & H8 & H9).
    destruct c. unfold normalise. cbn in *.
    now rewrite !clamp_id by assumption.
Qed.

(** X11.  Whatever was configured, [Build] leaves every numeric setting
    of the builder inside its valid range, and the settings of the
    client it returns are those it leaves in the builder. *)
Theorem Build_validates (b : ClientBuilder) :
  settings_valid (client (fst (fst (Build b))))
  /\ httpClient.Timeout (snd (Build b))
     = timeout (client (fst (fst (Build b))))
  /\ httpClient.MaxRetries (snd (Build b))
     = maxRetries (client (fst (fst (Build b))))
  /\ httpTransport.MaxIdleConns (httpClient.Transport (snd (Build b)))
     = maxIdleConns (client (fst (fst (Build b))))
  /\ httpTransport.MaxIdleConnsPerHost (httpClient.Transport (snd (Build b)))
     = maxIdleConnsPerHost (client (fst (fst (Build b))))
  /\ httpTransport.IdleConnTimeout (httpClient.Transport (snd (Build b)))
     = idleConnTimeout (client (fst (fst (Build b))))
  /\ httpTransport.TLSHandshakeTimeout (httpClient.Transport (snd (Build b)))
     = tlsHandshakeTimeout (client (fst (fst (Build b))))
  /\ httpTransport.ExpectContinueTimeout
       (httpClient.Transport (snd (Build b)))
     = expectContinueTimeout (client (fst (fst (Build b))))
  /\ httpTransport.DisableKeepAlives (httpClient.Transport (snd (Build b)))
     = disableKeepAlives (client (fst (fst (Build b)))).
Proof.
  rewrite Build_eq. cbn [fst snd client].
  split; [apply normalise_valid|]. repeat split.
Qed.

(** X12.  [Build] logs nothing exactly when every numeric setting is in
    its valid range and the strategy type is one of the three known
    ones. *)
Theorem Build_silent_iff (b : ClientBuilder) :
  snd (fst (Build b)) = []
  <-> settings_valid (client b)
      /\ IsValid (retryStrategyType (client b)) = true.
Proof.
  rewrite Build_eq. cbn [fst snd]. unfold settings_valid, warnedStrategy.
  split.
  - intros H.
    repeat (apply app_eq_nil in H; destruct H as [?H H]).
    repeat match goal with
           | H : warned _ _ _ _ _ _ = [] |- _ => apply warned_nil in H
           end.
    destruct (IsValid (retryStrategyType (client b))); [|discriminate].
    repeat split; tauto.
  - intros ((H1 & H2 & H3 & H4 & H5 & H6 & H7 & H8 & H9) & Hv).
    rewrite Hv.
    rewrite !(proj2 (warned_nil _ _ _ _ _ _)) by assumption. reflexivity.
Qed.

(** X13.  [Build] leaves the builder as it found it exactly when every
    numeric setting was already in its valid range; the strategy type is
    never rewritten. *)
Theorem Build_keeps_valid_iff (b : ClientBuilder) :
  (fst (fst (Build b)) = b <-> settings_valid (client b))
  /\ retryStrategyType (client (fst (fst (Build b))))
     = retryStrategyType (client b).
Proof.
  rewrite Build_eq. cbn [fst snd client]. split; [|reflexivity].
  rewrite <- normalise_fixed. destruct b as [c]. cbn [client].
  split; [intros [= H]; exact H | intros ->; reflexivity].
Qed.

(** X14.  Building twice changes nothing: the second [Build] returns
    the same client and leaves the same builder; it logs again only the
    warning about an unknown strategy type, which the first [Build] did
    not repair. *)
Theorem Build_idempotent (b : ClientBuilder) :
  Build (fst (fst (Build b)))
  = (fst (fst (Build b)),
     warnedStrategy (retryStrategyType (client b)),
     snd (Build b)).
Proof.
  pose proof (normalise_valid (client b)) as Hv.
  pose proof (proj2 (normalise_fixed _) Hv) as Hn.
  rewrite (Build_eq b). cbn [fst snd].
  rewrite Build_eq. cbn [client]. rewrite !Hn.
  unfold settings_valid in Hv.
  destruct Hv as (H1 & H2 & H3 & H4 & H5 & H6 & H7 & H8 & H9).
  rewrite !(proj2 (warned_nil _ _ _ _ _ _)) by assumption.
  reflexivity.
Qed.

(** X15.  [WithMaxRetries n] followed by [Build] gives a client that
    retries [n] times when [1 <= n <= 10] and 3 times otherwise: retries
    cannot be switched off, nor raised above 10, through the builder. *)
Theorem Build_max_retries (n : Z) (b : ClientBuilder) :
  httpClient.MaxRetries (snd (Build (WithMaxRetries n b)))
  = (if (1 <=? n) && (n <=? 10) then n else 3)
  /\ 1 <= httpClient.MaxRetries (snd (Build (WithMaxRetries n b))) <= 10.
Proof.
  rewrite Build_eq. cbn [snd httpClient.MaxRetries].
  destruct b as [[]]. cbn.
  split; [|apply clamp_range; unfold_settings; lia].
  unfold clamp. unfold_settings.
  destruct (1 <=? n) eqn:H1; destruct (n <=? 10) eqn:H2;
    destruct (n <? 1) eqn:H3; destruct (10 <? n) eqn:H4;
    try reflexivity; lia.
Qed.

(** X16.  [WithRetryStrategyAsString] always stores a known strategy
    type: the given one when it is known, the exponential one, with a
    warning, when it is not; nothing else of the client changes, and a
    later [Build] has nothing to say about the strategy. *)
Theorem WithRetryStrategyAsString_valid (s : string) (b : ClientBuilder) :
  IsValid (retryStrategyType (client (fst (WithRetryStrategyAsString s b))))
  = true
  /\ retryStrategyType (client (fst (WithRetryStrategyAsString s b)))
     = (if IsValid s then s else ExponentialBackoffStrategy)
  /\ (snd (WithRetryStrategyAsString s b) = [] <-> IsValid s = true)
  /\ set_retryStrategyType (retryStrategyType (client b))
       (client (fst (WithRetryStrategyAsString s b)))
     = client b
  /\ warnedStrategy
       (retryStrategyType (client (fst (WithRetryStrategyAsString s b))))
     = [].
Proof.
  unfold WithRetryStrategyAsString, warnedStrategy. cbv zeta.
  destruct (IsValid s) eqn:Hv; cbn [negb fst snd client];
    destruct b as [[]]; cbn; rewrite ?Hv;
    repeat split; try reflexivity; try discriminate.
Qed.

(** X17.  For what [Build] returns it makes no difference whether a
    strategy name was given through [WithRetryStrategyAsString] or
    through [WithRetryStrategy]: an unknown name ends as the exponential
    strategy either way. *)
Theorem Build_strategy_by_name (s : string) (b : ClientBuilder) :
  snd (Build (fst (WithRetryStrategyAsString s b)))
  = snd (Build (WithRetryStrategy s b))
  /\ (IsValid s = false ->
      httpClient.RetryStrategy (snd (Build (WithRetryStrategy s b)))
      = ExponentialBackoffOf
          (retryBaseDelay (normalise (client b)))
          (retryMaxDelay (normalise (client b)))).
Proof.
  rewrite !Build_eq. unfold WithRetryStrategyAsString, WithRetryStrategy.
  cbv zeta. destruct b as [[]].
  destruct (IsValid s) eqn:Hv; cbn; [split; [reflexivity | discriminate]|].
  unfold IsValid in Hv.
  apply orb_false_elim in Hv as [Hv He].
  apply orb_false_elim in Hv as [Hf Hj].
  rewrite Hf, Hj. split; reflexivity.
Qed.

Lemma Build_strategy_by_name_witness :
  httpClient.RetryStrategy
    (snd (Build (WithRetryStrategy "linear"%string NewClientBuilder)))
  = ExponentialBackoffOf 500000000 10000000000.
Proof.
  destruct (Build_strategy_by_name "linear" NewClientBuilder) as [_ H].
  rewrite H; reflexivity.
Defined.

Lemma Build_silent_iff_witness :
  snd (fst (Build NewClientBuilder)) = []
  /\ snd (fst (Build (WithMaxRetries 0 NewClientBuilder))) <> [].
Proof.
  split.
  - apply (proj2 (Build_silent_iff NewClientBuilder)).
    split; [|reflexivity].
    unfold settings_valid. cbn. unfold_settings. lia.
  - intros H. apply (proj1 (Build_silent_iff _)) in H.
    destruct H as [(_ & _ & _ & _ & _ & _ & Hr & _) _].
    cbn in Hr. unfold_settings. lia.
Defined.

Lemma Build_keeps_valid_iff_witness :
  fst (fst (Build NewClientBuilder)) = NewClientBuilder.
Proof.
  apply (proj2 (proj1 (Build_keeps_valid_iff NewClientBuilder))).
  unfold settings_valid. cbn. unfold_settings. lia.
Defined.

Lemma WithRetryStrategyAsString_valid_witness :
  snd (WithRetryStrategyAsString "jitter" NewClientBuilder) = []
  /\ retryStrategyType
       (client (fst (WithRetryStrategyAsString "linear" NewClientBuilder)))
     = ExponentialBackoffStrategy.
Proof.
  split.
  - destruct (WithRetryStrategyAsString_valid "jitter" NewClientBuilder)
      as (_ & _ & Hiff & _).
    apply Hiff. reflexivity.
  - destruct (WithRetryStrategyAsString_valid "linear" NewClientBuilder)
      as (_ & Hty & _).
    rewrite Hty. reflexivity.
Defined.

(** ** The delays of a built client *)

Section BuiltDelays.

(** With a base delay and a cap in the ranges [Build] enforces, the
    exponential delay stays between 300ms and 120s at every attempt
    index an [int] can hold. *)
Lemma ExponentialBackoff_validated (base cap attempt : Z) :
  ValidMinBaseDelay <= base <= ValidMaxBaseDelay ->
  ValidMinMaxDelay <= cap <= ValidMaxMaxDelay ->
  Int64.min_int <= attempt <= Int64.max_int ->
  ValidMinBaseDelay <= ExponentialBackoff base cap attempt
  <= ValidMaxMaxDelay.
Proof.
  intros Hb Hc Ha. unfold_settings.
  destruct (Z_lt_le_dec attempt 0) as [Hneg | Hpos].
  { rewrite ExponentialBackoff_outside_cap by auto. lia. }
  destruct (Z_le_gt_dec 63 attempt) as [Hbig | Hsmall].
  { rewrite ExponentialBackoff_outside_cap by auto. lia. }
  rewrite ExponentialBackoff_pow by lia.
  destruct ((attempt =? 0) && (cap <? base)); [lia|]. cbv zeta.
  destruct ((cap <? _) || (_ <=? 0)) eqn:Hcond; [lia|].
  apply orb_false_elim in Hcond as [Hle Hgt].
  apply Z.ltb_ge in Hle. apply Z.leb_gt in Hgt.
  split; [|lia].
  destruct (Z_le_gt_dec attempt 30) as [H30 | H31].
  - assert (0 < 2 ^ attempt) by (apply Z.pow_pos_nonneg; lia).
    assert (2 ^ attempt <= 2 ^ 30) as Hp by (apply Z.pow_le_mono_r; lia).
    change (2 ^ 30) with 1073741824 in Hp.
    assert (base * 2 ^ attempt <= 5 * 1000000000 * 1073741824)
      by (apply Z.mul_le_mono_nonneg; lia).
    rewrite wrap_id
      by (unfold Int64.in_range, Int64.min_int, Int64.max_int;
          change (2 ^ 63) with 9223372036854775808; nia).
    nia.
  - pose proof (wrap_mul_pow2_positive base attempt ltac:(lia) Hgt) as Hw.
    assert (2 ^ 31 <= 2 ^ attempt) as Hp by (apply Z.pow_le_mono_r; lia).
    change (2 ^ 31) with 2147483648 in Hp. lia.
Qed.

End BuiltDelays.

(** The delays of the strategy [Build] creates. *)
Lemma built_strategy_bounded (b : ClientBuilder) (raw attempt : Z) :
  Int64.min_int <= attempt <= Int64.max_int ->
  exists d,
    callStrategy (httpClient.RetryStrategy (snd (Build b))) raw attempt
    = Some d
    /\ 300 * Millisecond <= d < 180 * Second.
Proof.
  intros Ha. rewrite Build_eq. cbn [snd httpClient.RetryStrategy].
  destruct (normalise_valid (client b))
    as (_ & _ & _ & _ & _ & _ & _ & Hbase & Hcap).
  set (base := retryBaseDelay (normalise (client b))) in *.
  set (cap := retryMaxDelay (normalise (client b))) in *.
  pose proof (ExponentialBackoff_validated base cap attempt Hbase Hcap Ha)
    as He.
  destruct (String.eqb _ FixedDelayStrategy);
    [|destruct (String.eqb _ JitterBackoffStrategy)];
    cbn [callStrategy].
  - exists base. split; [reflexivity|]. unfold_settings. lia.
  - unfold_settings.
    set (e := ExponentialBackoff base cap attempt) in *.
    assert (2 * Z.quot e 2 <= e) as Hq
        by (rewrite Z.quot_div_nonneg by lia; apply Z.mul_div_le; lia).
    destruct (JitterBackoff_offset base cap raw attempt) as [Hj Hoff].
    { fold e. lia. }
    { fold e. unfold Int64.max_int.
      change (2 ^ 63) with 9223372036854775808. lia. }
    fold e in Hj, Hoff. eexists. split; [exact Hj|]. lia.
  - eexists. split; [reflexivity|]. unfold_settings. lia.
Qed.

(** X18.  The strategy of a client returned by [Build] never panics and
    never yields a delay below 300ms or of 180s or more, at any attempt
    index and for any draw of the random source. *)
Theorem Build_strategy_bounded (b : ClientBuilder) (raw attempt : Z) :
  Int64.min_int <= attempt <= Int64.max_int ->
  exists d,
    callStrategy (httpClient.RetryStrategy (snd (Build b))) raw attempt
    = Some d
    /\ 300 * Millisecond <= d < 180 * Second.
Proof. apply built_strategy_bounded. Qed.

Lemma Build_strategy_bounded_witness :
  exists d,
    callStrategy
      (httpClient.RetryStrategy
         (snd (Build (WithRetryStrategy JitterBackoffStrategy
                        NewClientBuilder)))) 123456789 40
    = Some d
    /\ 300 * Millisecond <= d < 180 * Second.
Proof.
  apply (Build_strategy_bounded
           (WithRetryStrategy JitterBackoffStrategy NewClientBuilder)
           123456789 40).
  vm_compute. split; discriminate.
Defined.

(** X19.  A request sent through a client returned by [Build] is sent at
    most 11 times, with at most 10 waits in between, each of at least
    300ms and less than 180s, whatever the transport does; [delays]
    stands for the delays the built strategy yields under the draws of
    the random source. *)
Theorem Build_round_trip_bounded (b : ClientBuilder)
  (behaviour : RoundTripper) (draws : Z -> Z) (delays : RetryStrategy)
  (req : Request) :
  (forall k,
      0 <= k < httpClient.MaxRetries (snd (Build b)) ->
      callStrategy (httpClient.RetryStrategy (snd (Build b))) (draws k) k
      = Some (delays k)) ->
  exists tr res,
    RoundTrip behaviour (retrierOf behaviour delays (snd (Build b))) req
    = Some (tr, res)
    /\ (sends tr <= 11)%nat
    /\ (List.length (sleeps tr) <= 10)%nat
    /\ Forall (fun d => 300 * Millisecond <= d < 180 * Second) (sleeps tr).
Proof.
  intros Hdelays.
  destruct (RoundTrip_total behaviour
              (retrierOf behaviour delays (snd (Build b))) req)
    as (tr & res & Hrun).
  exists tr, res. split; [exact Hrun|]. unfold RoundTrip in Hrun.
  destruct (loop_effort _ _ _ _ _ _ _ _ Hrun) as (Hmap & Hlen & _ & Hs).
  clear Hrun.
  change (retryTransport.MaxRetries
            (retrierOf behaviour delays (snd (Build b))))
    with (httpClient.MaxRetries (snd (Build b))) in *.
  change (strategyOf (retrierOf behaviour delays (snd (Build b))))
    with delays in Hmap.
  assert (ValidMinRetries <= httpClient.MaxRetries (snd (Build b))
          <= ValidMaxRetries) as Hr.
  { rewrite Build_eq. cbn [snd httpClient.MaxRetries].
    apply (normalise_valid (client b)). }
  unfold ValidMinRetries, ValidMaxRetries in Hr.
  rewrite Z.sub_0_r in Hlen, Hs.
  split; [lia|]. split; [lia|].
  rewrite Hmap. apply Forall_forall. intros d Hin.
  apply in_map_iff in Hin as (k & <- & Hk).
  apply In_attempts in Hk.
  assert (0 <= k < httpClient.MaxRetries (snd (Build b))) as Hkr by lia.
  specialize (Hdelays k Hkr).
  destruct (built_strategy_bounded b (draws k) k) as (d & Hd & Hbound).
  { unfold Int64.min_int, Int64.max_int.
    change (2 ^ 63) with 9223372036854775808. lia. }
  rewrite Hdelays in Hd. injection Hd as <-. exact Hbound.
Qed.

Lemma Build_round_trip_bounded_witness :
  exists tr res,
    RoundTrip Sample.refused
      (retrierOf Sample.refused (ExponentialBackoff 500000000 10000000000)
                 (snd (Build NewClientBuilder))) Sample.replayable
    = Some (tr, res)
    /\ (sends tr <= 11)%nat
    /\ (List.length (sleeps tr) <= 10)%nat
    /\ Forall (fun d => 300 * Millisecond <= d < 180 * Second) (sleeps tr).
Proof.
  apply (Build_round_trip_bounded NewClientBuilder Sample.refused
           (fun _ => 0) (ExponentialBackoff 500000000 10000000000)
           Sample.replayable).
  intros k _. reflexivity.
Defined.

(** ** Body replay over a whole run *)

Section Replay.

Variable transport : RoundTripper.
Variable retryStrategy : RetryStrategy.
Variable MaxRetries : Z.

Local Abbreviation pass := (iteration transport retryStrategy MaxRetries).
Local Abbreviation run := (loop transport retryStrategy MaxRetries).

(** A pass on a request that has a body and a [GetBody]. *)
Lemma pass_capable (attempt : Z) (rq : Request) b0 getBody ev rq' c :
  Body rq = Some b0 -> GetBody rq = Some getBody ->
  pass attempt rq = (ev, rq', c) ->
  (forall clone,
      getBody attempt = (clone, None) ->
      (exists rest, ev = EvGetBody attempt :: EvSend attempt clone :: rest)
      /\ Body rq' = clone)
  /\ (forall clone e,
         getBody attempt = (clone, Some e) ->
         ev = [EvGetBody attempt]
         /\ c = Return (Err (Errorf "failed to get request body for retry: %w"
                                    e []))).
Proof.
  intros Hb Hg Hit. split.
  - intros clone Hc.
    assert (rewind attempt rq
            = ([EvGetBody attempt],
               {| Body := clone; GetBody := GetBody rq |}, None)) as Hr
        by (unfold rewind; now rewrite Hb, Hg, Hc).
    destruct (iteration_sends transport retryStrategy MaxRetries
                attempt rq _ _ Hr) as (rest & c' & Hit').
    rewrite Hit in Hit'. injection Hit' as -> -> _.
    split; [exists rest|]; reflexivity.
  - intros clone e Hc. unfold iteration, rewind in Hit.
    rewrite Hb, Hg, Hc in Hit. injection Hit as <- _ <-. split; reflexivity.
Qed.

(** A pass on a request without a body or without a [GetBody]. *)
Lemma pass_incapable (attempt : Z) (rq : Request) ev rq' c :
  Body rq = None \/ GetBody rq = None ->
  pass attempt rq = (ev, rq', c) ->
  exists rest,
    ev = EvSend attempt (Body rq) :: rest
    /\ (forall j, ~ In (EvGetBody j) rest)
    /\ rq' = rq.
Proof.
  intros Hnone Hit.
  assert (rewind attempt rq = ([], rq, None)) as Hr.
  { unfold rewind. destruct Hnone as [-> | ->]; [reflexivity|].
    now destruct (Body rq). }
  unfold iteration in Hit. rewrite Hr in Hit.
  destruct (transport attempt) as [resp err].
  destruct (succeeded resp err) as [r|].
  { injection Hit as <- <- _. exists []. repeat split; auto. }
  unfold discard in Hit.
  destruct resp as [r|];
    [destruct (copyErr r); [|destruct (closeErr r)]|];
    try destruct (attempt <? MaxRetries);
    injection Hit as <- <- _; eexists; (split; [reflexivity|]);
    (split; [|reflexivity]); intros j Hin; cbn in Hin;
    intuition discriminate.
Qed.

(** The body at hand stays in step with [bodyAt] from one pass to the
    next. *)
Lemma pass_bodyAt (req0 : Request) (attempt : Z) (rq : Request) ev rq' :
  0 <= attempt ->
  GetBody rq = GetBody req0 ->
  Body rq = bodyAt req0 (Z.to_nat attempt) ->
  pass attempt rq = (ev, rq', Continue) ->
  Body rq' = bodyAt req0 (Z.to_nat (attempt + 1)).
Proof.
  intros Ha Hg Hb Hit.
  replace (Z.to_nat (attempt + 1)) with (S (Z.to_nat attempt)) by lia.
  cbn [bodyAt]. rewrite <- Hb, <- Hg, Z2Nat.id by lia.
  destruct (Body rq) as [b0|] eqn:Hbody.
  - destruct (GetBody rq) as [g|] eqn:Hget.
    + destruct (pass_capable _ _ _ _ _ _ _ Hbody Hget Hit) as [Hok Hfail].
      destruct (g attempt) as [clone [e|]] eqn:Hc.
      * destruct (Hfail clone e eq_refl) as [_ ?]. discriminate.
      * now destruct (Hok clone eq_refl) as [_ ->].
    + destruct (pass_incapable _ _ _ _ _ (or_intror Hget) Hit)
        as (_ & _ & _ & ->).
      exact Hbody.
  - destruct (pass_incapable _ _ _ _ _ (or_introl Hbody) Hit)
      as (_ & _ & _ & ->).
    exact Hbody.
Qed.

(** Body replay at every attempt of a run that starts at [attempt] with
    the body and the [GetBody] the request [req0] has by then. *)
Lemma loop_replay (req0 : Request) (fuel : nat) :
  forall attempt rq tr res,
    0 <= attempt ->
    GetBody rq = GetBody req0 ->
    Body rq = bodyAt req0 (Z.to_nat attempt) ->
    run fuel attempt rq = Some (tr, res) ->
    forall k,
      took_place k tr ->
      attempt <= k <= MaxRetries
      /\ (forall b0 getBody,
             bodyAt req0 (Z.to_nat k) = Some b0 ->
             GetBody req0 = Some getBody ->
             (forall clone,
                 getBody k = (clone, None) ->
                 exists pre post,
                   tr = pre ++ EvGetBody k :: EvSend k clone :: post)
             /\ (forall clone e,
                    getBody k = (clone, Some e) ->
                    res = Err (Errorf
                                 "failed to get request body for retry: %w"
                                 e [])
                    /\ (exists pre, tr = pre ++ [EvGetBody k])
                    /\ (forall j b, In (EvSend j b) tr -> j < k)))
      /\ (bodyAt req0 (Z.to_nat k) = None \/ GetBody req0 = None ->
          ~ In (EvGetBody k) tr
          /\ exists pre post,
              tr = pre ++ EvSend k (bodyAt req0 (Z.to_nat k)) :: post).
Proof.
  induction fuel as [|fuel IH];
    intros attempt rq tr res Ha Hg Hb Hl k (e & Hin & Hk);
    apply loop_inv in Hl;
    destruct Hl as [(_ & -> & _) | (Hle & fuel' & ev & rq' & Hf & Hl)];
    try (cbn in Hin; tauto); try discriminate.
  injection Hf as <-.
  assert (forall x j, In x ev -> attempt_of x = Some j -> j = attempt)
    as Hev.
  { destruct Hl as [[Hit _] | [Hit _]];
      exact (iteration_attempt_of _ _ _ _ _ _ _ _ Hit). }
  assert (k = attempt \/ (attempt + 1 <= k /\ exists tr',
             pass attempt rq = (ev, rq', Continue)
             /\ run fuel (attempt + 1) rq' = Some (tr', res)
             /\ tr = ev ++ tr' /\ In e tr')) as Hwhere.
  { destruct Hl as [[Hit ->] | [Hit (tr' & Hl & ->)]].
    - left. exact (Hev _ _ Hin Hk).
    - apply in_app_or in Hin as [Hin | Hin].
      + left. exact (Hev _ _ Hin Hk).
      + right. split; [exact (loop_attempts_ge _ _ _ _ _ _ _ _ Hl _ _ Hin Hk)|].
        exists tr'. auto. }
  destruct Hwhere as [-> | (Hk1 & tr' & Hit & Hl' & -> & Hin')].
  - (* the attempt of this pass *)
    split; [lia|].
    assert (exists tl, tr = ev ++ tl
                       /\ (forall x j, In x tl -> attempt_of x = Some j ->
                                       attempt + 1 <= j)
                       /\ (forall cc, pass attempt rq = (ev, rq', Return cc)
                                      -> tl = [] /\ cc = res)
                       /\ exists c, pass attempt rq = (ev, rq', c))
      as (tl & -> & Htl & Hret & c & Hit).
    { destruct Hl as [[Hit ->] | [Hit (tr' & Hl & ->)]].
      - exists []. rewrite app_nil_r. split; [reflexivity|].
        split; [intros x j []|]. split; [|eauto].
        intros cc Hcc. rewrite Hit in Hcc. injection Hcc as <-. auto.
      - exists tr'. split; [reflexivity|].
        split; [intros x j; exact (loop_attempts_ge _ _ _ _ _ _ _ _ Hl _ _)|].
        split; [|eauto]. intros cc Hcc. rewrite Hit in Hcc. discriminate. }
    rewrite <- Hb, <- Hg. split.
    + intros b0 g Hbody Hget.
      destruct (pass_capable _ _ _ _ _ _ _ Hbody Hget Hit) as [Hok Hfail].
      split.
      * intros clone Hc. destruct (Hok clone Hc) as [[rest ->] _].
        exists [], (rest ++ tl). reflexivity.
      * intros clone x Hc. destruct (Hfail clone x Hc) as [-> ->].
        destruct (Hret _ Hit) as [-> <-].
        split; [reflexivity|]. split; [exists []; reflexivity|].
        intros j b [Hj | []]. discriminate.
    + intros Hnone.
      destruct (pass_incapable _ _ _ _ _ Hnone Hit) as (rest & -> & Hq & _).
      split.
      * intros [Hx | Hx]; [discriminate|].
        apply in_app_or in Hx as [Hx | Hx]; [exact (Hq _ Hx)|].
        specialize (Htl _ _ Hx eq_refl). lia.
      * exists [], (rest ++ tl). reflexivity.
  - (* a later attempt *)
    pose proof (iteration_GetBody _ _ _ _ _ _ _ _ Hit) as Hg'.
    pose proof (pass_bodyAt req0 _ _ _ _ Ha Hg Hb Hit) as Hb'.
    assert (0 <= attempt + 1) as Ha' by lia.
    destruct (IH (attempt + 1) rq' tr' res Ha' (eq_trans Hg' Hg) Hb' Hl' k)
      as (Hrange & Hcap & Hinc); [exists e; auto|].
    split; [lia|]. split.
    + intros b0 g Hbody Hget.
      destruct (Hcap b0 g Hbody Hget) as [Hok Hfail]. split.
      * intros clone Hc. destruct (Hok clone Hc) as (pre & post & ->).
        exists (ev ++ pre), post. now rewrite <- app_assoc.
      * intros clone x Hc.
        destruct (Hfail clone x Hc) as (-> & (pre & Hpre) & Hsends).
        split; [reflexivity|]. split.
        -- exists (ev ++ pre). rewrite Hpre. now rewrite <- app_assoc.
        -- intros j b Hx. apply in_app_or in Hx as [Hx | Hx].
           ++ rewrite (Hev _ _ Hx eq_refl). lia.
           ++ exact (Hsends _ _ Hx).
    + intros Hnone. destruct (Hinc Hnone) as (Hno & pre & post & Htr).
      split.
      * intros Hx. apply in_app_or in Hx as [Hx | Hx]; [|exact (Hno Hx)].
        pose proof (Hev _ _ Hx eq_refl). lia.
      * exists (ev ++ pre), post. rewrite Htr at 1. now rewrite <- app_assoc.
Qed.

End Replay.

(** C9.  In every run of [RoundTrip] and at every attempt that takes
    place: when the request then has a body and a [GetBody], [GetBody]
    is called right before the send and the send carries the fresh
    copy; when that call fails the run ends there with the body-replay
    error, [GetBody] being the last thing it did, and no send of that
    or of a later attempt is made; when the request then has no body or
    no [GetBody], [GetBody] is not called at that attempt and the
    request is sent with the body it has. *)
Theorem RoundTrip_replays_body (D : RoundTripper) (r : retryTransport.t)
  (req : Request) :
  exists tr res,
    RoundTrip D r req = Some (tr, res)
    /\ forall k,
        took_place k tr ->
        0 <= k <= retryTransport.MaxRetries r
        /\ (forall b0 getBody,
               bodyAt req (Z.to_nat k) = Some b0 ->
               GetBody req = Some getBody ->
               (forall clone,
                   getBody k = (clone, None) ->
                   exists pre post,
                     tr = pre ++ EvGetBody k :: EvSend k clone :: post)
               /\ (forall clone e,
                      getBody k = (clone, Some e) ->
                      res = Err (Errorf
                                   "failed to get request body for retry: %w"
                                   e [])
                      /\ (exists pre, tr = pre ++ [EvGetBody k])
                      /\ (forall j b, In (EvSend j b) tr -> j < k)))
        /\ (bodyAt req (Z.to_nat k) = None \/ GetBody req = None ->
            ~ In (EvGetBody k) tr
            /\ exists pre post,
                tr = pre ++ EvSend k (bodyAt req (Z.to_nat k)) :: post).
Proof.
  destruct (RoundTrip_total D r req) as (tr & res & Hrun).
  exists tr, res. split; [exact Hrun|]. unfold RoundTrip in Hrun.
  intros k Hk.
  exact (loop_replay _ _ _ req _ 0 req tr res (Z.le_refl 0) eq_refl eq_refl
           Hrun k Hk).
Qed.

Lemma RoundTrip_replays_body_witness :
  (exists tr res pre post,
      RoundTrip Sample.refused
        (Sample.retrier (Sample.always (Sample.plain 500)) 3)
        Sample.replayable = Some (tr, res)
      /\ tr = pre ++ EvGetBody 2 :: EvSend 2 (Some 3%nat) :: post)
  /\ (exists tr res,
         RoundTrip Sample.refused
           (Sample.retrier (Sample.always (Sample.plain 500)) 3)
           Sample.stale = Some (tr, res)
         /\ res = Err (Errorf "failed to get request body for retry: %w"
                              (External 9) [])
         /\ forall j b, In (EvSend j b) tr -> j < 1)
  /\ (exists tr res pre post,
         RoundTrip Sample.refused
           (Sample.retrier (Sample.always (Sample.plain 500)) 3)
           Sample.oneShot = Some (tr, res)
         /\ ~ In (EvGetBody 1) tr
         /\ tr = pre ++ EvSend 1 (Some 0%nat) :: post).
Proof.
  split; [|split].
  - destruct (RoundTrip_replays_body Sample.refused
                (Sample.retrier (Sample.always (Sample.plain 500)) 3)
                Sample.replayable) as (tr & res & Hrun & H).
    assert (took_place 2 tr) as Htp.
    { vm_compute in Hrun. injection Hrun as <- _.
      exists (EvGetBody 2). split; [cbn; tauto | reflexivity]. }
    destruct (H 2 Htp) as (_ & Hcap & _).
    destruct (Hcap 2%nat _ eq_refl eq_refl) as [Hok _].
    destruct (Hok (Some 3%nat) eq_refl) as (pre & post & Htr).
    exists tr, res, pre, post. auto.
  - destruct (RoundTrip_replays_body Sample.refused
                (Sample.retrier (Sample.always (Sample.plain 500)) 3)
                Sample.stale) as (tr & res & Hrun & H).
    assert (took_place 1 tr) as Htp.
    { vm_compute in Hrun. injection Hrun as <- _.
      exists (EvGetBody 1). split; [cbn; tauto | reflexivity]. }
    destruct (H 1 Htp) as (_ & Hcap & _).
    destruct (Hcap 1%nat _ eq_refl eq_refl) as [_ Hfail].
    destruct (Hfail None (External 9) eq_refl) as (Hres & _ & Hsends).
    exists tr, res. auto.
  - destruct (RoundTrip_replays_body Sample.refused
                (Sample.retrier (Sample.always (Sample.plain 500)) 3)
                Sample.oneShot) as (tr & res & Hrun & H).
    assert (took_place 1 tr) as Htp.
    { vm_compute in Hrun. injection Hrun as <- _.
      exists (EvSend 1 (Some 0%nat)). split; [cbn; tauto | reflexivity]. }
    destruct (H 1 Htp) as (_ & _ & Hinc).
    destruct (Hinc (or_intror eq_refl)) as (Hno & pre & post & Htr).
    exists tr, res, pre, post. auto.
Defined.

(** ** Sends and waits in order *)

Section Alternation.

Variable transport : RoundTripper.
Variable retryStrategy : RetryStrategy.
Variable MaxRetries : Z.

Local Abbreviation pass := (iteration transport retryStrategy MaxRetries).
Local Abbreviation run := (loop transport retryStrategy MaxRetries).

(** A wait of a trace that starts with events that are no waits lies
    after them. *)
Lemma split_at_sleep (xs ys pre post : list event) (d : Z) :
  sleeps xs = [] ->
  xs ++ ys = pre ++ EvSleep d :: post ->
  exists mid, pre = xs ++ mid /\ ys = mid ++ EvSleep d :: post.
Proof.
  revert pre. induction xs as [|x xs IH]; intros pre Hq Heq.
  - exists pre. auto.
  - destruct pre as [|p pre]; cbn in Heq; injection Heq as -> Heq.
    + cbn in Hq. discriminate.
    + assert (sleeps xs = []) as Hq' by (destruct p; cbn in Hq; congruence).
      destruct (IH pre Hq' Heq) as (mid & -> & ->).
      exists mid. auto.
Qed.

(** The events of a pass: at most one send and no wait, then the
    announcement and the wait when the loop goes on. *)
Lemma pass_events (attempt : Z) (rq : Request) ev rq' c :
  pass attempt rq = (ev, rq', c) ->
  exists evA,
    sleeps evA = []
    /\ match c with
       | Return _ => ev = evA
       | Continue =>
           sends evA = 1%nat
           /\ ev = evA ++ [EvPrintf (attempt + 1) (retryStrategy attempt);
                           EvSleep (retryStrategy attempt)]
       end.
Proof.
  intros Hit.
  pose proof (iteration_viewP transport retryStrategy MaxRetries
                attempt rq) as V.
  rewrite Hit in V.
  inversion V; subst; clear V;
    match goal with
    | H : rewind _ _ = _ |- _ =>
        destruct (rewind_untouched attempt attempt _ _ _ _ None H)
          as (_ & _ & Hs0 & Hz0 & _)
    end;
    try match goal with
      | H : discard _ _ = _ |- _ =>
          destruct (discard_quiet _ _ _ _ H) as [Hs2 Hz2]
      end.
  - exists ev. auto.
  - eexists. split; [|reflexivity]. now rewrite sleeps_app, Hz0.
  - eexists. split; [|reflexivity]. now rewrite !sleeps_app, Hz0, Hz2.
  - exists ((ev0 ++ [EvSend attempt (Body rq')]) ++ ev2).
    rewrite !sleeps_app, !sends_app, Hz0, Hz2, Hs0, Hs2.
    split; [reflexivity|]. split; [reflexivity|].
    now rewrite <- !app_assoc.
  - eexists. split; [|reflexivity]. now rewrite !sleeps_app, Hz0, Hz2.
Qed.

(** In a run from [attempt], the wait number [i + 1] comes after exactly
    [i + 1] sends and is the delay of the strategy at attempt
    [attempt + i]. *)
Lemma loop_waits_in_order (fuel : nat) :
  forall attempt rq tr res,
    run fuel attempt rq = Some (tr, res) ->
    forall pre d post,
      tr = pre ++ EvSleep d :: post ->
      sends pre = S (List.length (sleeps pre))
      /\ d = retryStrategy (attempt + Z.of_nat (List.length (sleeps pre))).
Proof.
  induction fuel as [|fuel IH]; intros attempt rq tr res Hl pre d post Htr;
    apply loop_inv in Hl;
    destruct Hl as [(_ & Hnil & _) | (Hle & fuel' & ev & rq' & Hf & Hl)];
    try (subst tr; destruct pre; discriminate); try discriminate.
  injection Hf as <-.
  destruct Hl as [[Hit Hev] | [Hit (tr' & Hl & Hev)]].
  - destruct (pass_events _ _ _ _ _ Hit) as (evA & Hz & ->).
    subst tr. rewrite Htr, sleeps_app in Hz. cbn in Hz.
    destruct (sleeps pre); discriminate.
  - destruct (pass_events _ _ _ _ _ Hit) as (evA & Hz & Hs & ->).
    subst tr. rewrite <- app_assoc in Htr.
    destruct (split_at_sleep _ _ _ _ _ Hz Htr) as (mid & -> & Hmid).
    destruct mid as [|m1 [|m2 mid]]; cbn in Hmid.
    + discriminate.
    + injection Hmid as <- <- _.
      rewrite sends_app, sleeps_app, Hs, Hz. cbn.
      split; [reflexivity | f_equal; lia].
    + injection Hmid as <- <- Htr'.
      destruct (IH _ _ _ _ Hl _ _ _ Htr') as [Hsends ->].
      rewrite sends_app, sleeps_app, Hs, Hz. cbn [app sleeps List.length].
      change (sends (EvPrintf (attempt + 1) (retryStrategy attempt)
                       :: EvSleep (retryStrategy attempt) :: mid))
        with (sends mid).
      split; [lia | f_equal; lia].
Qed.

End Alternation.

(** X5.  Whatever the collaborators do, [RoundTrip] sends at most
    [MaxRetries + 1] times and waits at most [MaxRetries] times, and
    sends and waits alternate, a send first: the wait number [i + 1]
    comes after exactly [i + 1] sends and is the delay of the strategy
    at attempt [i], and the sends outnumber the waits by one at most. *)
Theorem RoundTrip_bounded_effort (D : RoundTripper)
  (r : retryTransport.t) (req : Request) :
  exists tr res,
    RoundTrip D r req = Some (tr, res)
    /\ (sends tr <= Z.to_nat (retryTransport.MaxRetries r + 1))%nat
    /\ (List.length (sleeps tr) <= Z.to_nat (retryTransport.MaxRetries r))%nat
    /\ (List.length (sleeps tr) <= sends tr <= S (List.length (sleeps tr)))%nat
    /\ sleeps tr
       = map (strategyOf r) (attempts 0 (List.length (sleeps tr)))
    /\ forall pre d post,
        tr = pre ++ EvSleep d :: post ->
        sends pre = S (List.length (sleeps pre))
        /\ d = strategyOf r (Z.of_nat (List.length (sleeps pre))).
Proof.
  destruct (RoundTrip_total D r req) as (tr & res & Hrun).
  exists tr, res. split; [exact Hrun|]. unfold RoundTrip in Hrun.
  destruct (loop_effort _ _ _ _ _ _ _ _ Hrun) as (Hmap & Hlen & Hbw & Hs).
  rewrite Z.sub_0_r in Hlen, Hs.
  repeat (split; [assumption|]).
  intros pre d post Htr.
  exact (loop_waits_in_order _ _ _ _ _ _ _ _ Hrun _ _ _ Htr).
Qed.

Lemma RoundTrip_bounded_effort_witness :
  exists tr res pre post,
    RoundTrip Sample.refused (Sample.retrier Sample.flaky 5) Sample.noBody
    = Some (tr, res)
    /\ tr = pre ++ EvSleep 7 :: post
    /\ List.length (sleeps pre) = 1%nat
    /\ sends pre = 2%nat.
Proof.
  destruct (RoundTrip_bounded_effort Sample.refused
              (Sample.retrier Sample.flaky 5) Sample.noBody)
    as (tr & res & Hrun & _ & _ & _ & _ & Horder).
  exists tr, res,
    [EvSend 0 None; EvCopy 0; EvClose 0; EvPrintf 1 7;
     EvSleep 7; EvSend 1 None; EvCopy 1; EvClose 1; EvPrintf 2 7],
    [EvSend 2 None; EvCopy 2; EvClose 2; EvPrintf 3 7;
     EvSleep 7; EvSend 3 None].
  split; [exact Hrun|].
  assert (tr = [EvSend 0 None; EvCopy 0; EvClose 0; EvPrintf 1 7;
                EvSleep 7; EvSend 1 None; EvCopy 1; EvClose 1; EvPrintf 2 7]
               ++ EvSleep 7
               :: [EvSend 2 None; EvCopy 2; EvClose 2; EvPrintf 3 7;
                   EvSleep 7; EvSend 3 None]) as Htr.
  { vm_compute in Hrun. injection Hrun as <- _. reflexivity. }
  split; [exact Htr|]. split; [reflexivity|].
  destruct (Horder _ _ _ Htr) as [Hsends _]. exact Hsends.
Defined.
